(** * log_monitor: a shallow embedding of [log_monitor.py]

    The development follows the three classes of the program:
    [ConfigManager] (derivation of the parameter bundle), [LogProcessor]
    (cleaning and keyword filtering of a chunk) and [LogMonitor] (the
    polling engine: validation, open and re-open, truncation detection,
    the poll loop and shutdown).

    A Python [str] is a sequence of Unicode code points: [text] is a list
    of code points.  Python [int] is [Z]; Python [float] is an IEEE-754
    binary64 value, modelled by the Standard Library's [spec_float]. *)

From Stdlib Require Import ZArith NArith List Bool Lia String Ascii SpecFloat.
From stdpp Require Import base list gmap.
Import ListNotations.

Open Scope Z_scope.

(** ** Text *)

Definition char := N.
Definition text := list char.

(** A source literal, as the list of its code points (ASCII literals only). *)
Definition str (s : string) : text := List.map N_of_ascii (list_ascii_of_string s).

(** [s.startswith(kw)] *)
Fixpoint starts_with (kw s : text) : bool :=
  match kw, s with
  | [], _ => true
  | _ :: _, [] => false
  | k :: kw', c :: s' => N.eqb k c && starts_with kw' s'
  end.

(** [kw in s] on two [str]: literal, case-sensitive substring search. *)
Fixpoint contains (kw s : text) : bool :=
  starts_with kw s ||
  match s with
  | [] => false
  | _ :: s' => contains kw s'
  end.

(** What [kw in s] means: [kw] occurs in [s] as a contiguous run. *)
Definition substring (kw s : text) : Prop := exists l r, s = l ++ kw ++ r.

(** ** Regular-expression substitution

    [pattern.sub(repl, s)] scans [s] from the left; at each position where
    the pattern matches, the match is replaced and scanning resumes after it;
    other characters are copied.  A matcher gives, for the text that starts at
    the current position, the length of the match there and its replacement.
    Both patterns of the program match at least one character. *)

Definition matcher := text -> option (nat * text).

Fixpoint re_sub (m : matcher) (skip : nat) (s : text) : text :=
  match s with
  | [] => []
  | c :: s' =>
      match skip with
      | S k => re_sub m k s'
      | O =>
          match m s with
          | Some (n, repl) => repl ++ re_sub m (Nat.pred n) s'
          | None => c :: re_sub m 0 s'
          end
      end
  end.

(** [pattern.search(s) is not None] *)
Fixpoint re_search (m : matcher) (s : text) : bool :=
  match s with
  | [] => false
  | _ :: s' =>
      match m s with
      | Some _ => true
      | None => re_search m s'
      end
  end.

Module LogProcessor.

(** [_CHAR_FIX_MAP], in insertion order. *)
Definition _CHAR_FIX_MAP : list (text * text) :=
  [ (str "mainEx", str "main");
    (str "Server threadEx", str "Server thread");
    (str "Worker-Main-Ex", str "Worker-Main-") ].

(** [char_fix_pattern]: the alternation of the escaped keys, tried in order;
    the replacement of a match is [_CHAR_FIX_MAP[m.group()]]. *)
Fixpoint alternation (table : list (text * text)) (s : text) : option (nat * text) :=
  match table with
  | [] => None
  | (k, v) :: table' =>
      if starts_with k s then Some (List.length k, v) else alternation table' s
  end.

Definition char_fix_pattern : matcher := alternation _CHAR_FIX_MAP.

Definition in_range (lo hi c : char) : bool := (N.leb lo c && N.leb c hi)%bool.

(** The longest prefix of [s] made of characters of a class, as its length
    and what follows (a greedy [[...]*]). *)
Fixpoint star (cls : char -> bool) (s : text) : nat * text :=
  match s with
  | c :: s' => if cls c then let '(n, r) := star cls s' in (S n, r) else (O, s)
  | [] => (O, [])
  end.

(** [ansi_pattern]: [\x1B(?:[@-Z\\-_]|\[[0-?]*[ -/]*[@-~])].  The three
    classes of the second alternative are pairwise disjoint, so the greedy
    reading of the two stars is the only way the pattern can match. *)
Definition ESC : char := 27%N.

Definition ansi_pattern : matcher := fun s =>
  match s with
  | e :: c :: rest =>
      if negb (N.eqb e ESC) then None
      else if (in_range 64 90 c || in_range 92 95 c)%N then Some (2%nat, [])
      else if (N.eqb c 91)%N then
        let '(n1, r1) := star (in_range 48 63)%N rest in
        let '(n2, r2) := star (in_range 32 47)%N r1 in
        match r2 with
        | f :: _ => if (in_range 64 126 f)%N then Some (3 + n1 + n2, [])%nat else None
        | [] => None
        end
      else None
  | _ => None
  end.

(** [LogProcessor.clean] *)
Definition clean (filter_ansi : bool) (content : text) : text :=
  let content := re_sub char_fix_pattern 0 content in
  if filter_ansi then re_sub ansi_pattern 0 content else content.

(** [LogProcessor.filter]: the loop over the exclude keywords returns
    [False] at the first one found; then the include test. *)
Fixpoint exclude_hit (exclude_keywords : list text) (content : text) : bool :=
  match exclude_keywords with
  | [] => false
  | kw :: rest => if contains kw content then true else exclude_hit rest content
  end.

Definition filter (include_keywords exclude_keywords : list text) (content : text) : bool :=
  if exclude_hit exclude_keywords content then false
  else
    match include_keywords with
    | [] => true
    | _ :: _ => existsb (fun kw => contains kw content) include_keywords
    end.

End LogProcessor.

(** ** Configuration *)

Module ConfigManager.

(** What a typed getter of the parser ([getboolean], [getint], [getfloat],
    [get]) does for a section that exists: it returns the converted value,
    raises [NoOptionError] (no such key), raises [ValueError] (the value does
    not convert), or raises something else.  The parser is built with
    [allow_no_value=True], so a key written without a value reads as [None],
    on which [int], [float], [.lower()] and [.strip()] raise [TypeError] or
    [AttributeError]: these are not caught by [_get_param]. *)
Inductive lookup (A : Type) : Type :=
| Got (a : A)
| NoOptionError
| ValueError
| OtherError.
Arguments Got {A} a.
Arguments NoOptionError {A}.
Arguments ValueError {A}.
Arguments OtherError {A}.

(** The loaded [configparser.ConfigParser], seen through the calls the
    program makes on it. *)
Record ConfigParser := {
  has_section : string -> bool;
  getboolean : string -> string -> lookup bool;
  getint : string -> string -> lookup Z;
  getfloat : string -> string -> lookup spec_float;
  get : string -> string -> lookup text
}.

(** [str.isspace] for one code point (the characters [str.strip] removes). *)
Definition isspace (c : char) : bool :=
  ((9 <=? c) && (c <=? 13) || (28 <=? c) && (c <=? 32) || (c =? 133) || (c =? 160)
   || (c =? 5760) || (8192 <=? c) && (c <=? 8202) || (c =? 8232) || (c =? 8233)
   || (c =? 8239) || (c =? 8287) || (c =? 12288))%N.

Fixpoint lstrip (s : text) : text :=
  match s with
  | c :: s' => if isspace c then lstrip s' else s
  | [] => []
  end.

Definition rstrip (s : text) : text := rev (lstrip (rev s)).

(** [s.strip()] *)
Definition strip (s : text) : text := rstrip (lstrip s).

(** [s.split(sep)] for a one-character separator: never an empty list. *)
Fixpoint split (sep : char) (s : text) : list text :=
  match s with
  | [] => [[]]
  | c :: s' =>
      if N.eqb c sep then [] :: split sep s'
      else
        match split sep s' with
        | piece :: pieces => (c :: piece) :: pieces
        | [] => [[c]]
        end
  end.

Inductive dtype : Type -> Type :=
| Bool : dtype bool
| Int : dtype Z
| Float : dtype spec_float
| Str : dtype text.

(** [_get_param]: [None] stands for an exception that leaves [_get_param]
    (and with it the constructor of [ConfigManager]). *)
Definition _get_param {A} (self : ConfigParser) (sec key : string) (dt : dtype A)
    (default : A) : option A :=
  if negb (has_section self sec) then Some default
  else
    let got : lookup A :=
      match dt in dtype T return lookup T with
      | Bool => getboolean self sec key
      | Int => getint self sec key
      | Float => getfloat self sec key
      | Str =>
          match get self sec key with
          | Got v => Got (strip v)
          | NoOptionError => NoOptionError
          | ValueError => ValueError
          | OtherError => OtherError
          end
      end in
    match got with
    | Got v => Some v
    | NoOptionError | ValueError => Some default
    | OtherError => None
    end.

(** Python's [min(a, b)] and [max(a, b)] on two arguments: the first is kept
    unless the second is strictly smaller (larger).  With a NaN, every
    comparison is false. *)
Definition py_min {A} (lt : A -> A -> bool) (a b : A) : A := if lt b a then b else a.
Definition py_max {A} (lt : A -> A -> bool) (a b : A) : A := if lt a b then b else a.

Definition min_int := py_min Z.ltb.
Definition max_int := py_max Z.ltb.
Definition min_float := py_min SFltb.
Definition max_float := py_max SFltb.

(** The binary64 values of the literals [0.1], [1.0], [5.0], [30.0] and of
    [1000] converted to [float]. *)
Definition f0_1 : spec_float := S754_finite false 7205759403792794 (-56).
Definition f1_0 : spec_float := S754_finite false 4503599627370496 (-52).
Definition f5_0 : spec_float := S754_finite false 5629499534213120 (-50).
Definition f30_0 : spec_float := S754_finite false 8444249301319680 (-48).
Definition f1000 : spec_float := S754_finite false 8796093022208000 (-43).

(** [x / 1000] on a [float]. *)
Definition div1000 (x : spec_float) : spec_float := SFdiv 53 1024 x f1000.

Definition _SUPPORTED_ENCODINGS : list text :=
  [str "utf-8"; str "gbk"; str "gb2312"; str "utf-8-sig"].
Definition _SUPPORTED_ERROR_HANDLES : list text :=
  [str "replace"; str "ignore"; str "strict"].

Definition text_in (x : text) (l : list text) : bool :=
  existsb (fun y => bool_decide (x = y)) l.

(** [list(set([k.strip() for k in raw.split(",") if k.strip()]))]: the set
    fixes no order on the result; [elements] gives one. *)
Definition keywords (raw : text) : list text :=
  elements (list_to_set
    (List.map strip
       (List.filter (fun k => match strip k with [] => false | _ => true end)
          (split 44%N raw))) : gset text).

(** The parameter bundle ([valid_params]). *)
Record Params := {
  file_path : text;
  wait_for_file : bool;
  wait_interval : spec_float;
  chunk_size : Z;
  encoding : text;
  error_handle : text;
  interval : spec_float;
  read_full_on_truncate : bool;
  truncate_sensitivity : Z;
  show_status : bool;
  filter_ansi : bool;
  include_keywords : list text;
  exclude_keywords : list text;
  auto_close_delay : Z;
  show_stats : bool
}.

(** The [defaults] table. *)
Definition default_File_Path : text :=
  (str "D:\" ++ [26381; 21153; 22120] ++ str "\" ++ [24320; 26381; 20384]
   ++ str "\server\logs\latest.log")%N.
Definition default_Log_Filter : text := str "ERROR,WARN,INFO".
Definition default_Exclude_Filter : text := str "DEBUG".

(** [_validate_and_load_params].  The entries of the dictionary are evaluated
    in order; [Path(...).resolve()] is left out (the path is only a name). *)
Definition _validate_and_load_params (self : ConfigParser) : option Params :=
  v_file_path ← _get_param self "LogSource" "File_Path" Str default_File_Path;
  v_wait_for_file ← _get_param self "LogSource" "Wait_For_File" Bool true;
  v_wait_interval ← _get_param self "LogSource" "Wait_Interval" Float f5_0;
  v_chunk_size ← _get_param self "ReadConfig" "Chunk_Size" Int 32768;
  v_encoding ← _get_param self "ReadConfig" "Encoding" Str (str "utf-8");
  v_encoding' ← _get_param self "ReadConfig" "Encoding" Str (str "utf-8");
  v_error_handle ← _get_param self "ReadConfig" "Error_Handle" Str (str "replace");
  v_error_handle' ← _get_param self "ReadConfig" "Error_Handle" Str (str "replace");
  v_interval_ms ← _get_param self "MonitorConfig" "Interval_MS" Float f1000;
  v_read_full ← _get_param self "MonitorConfig" "Read_Full_On_Truncate" Bool true;
  v_sensitivity ← _get_param self "MonitorConfig" "Truncate_Sensitivity" Int 1024;
  v_show_status ← _get_param self "DisplayConfig" "Show_Status" Bool true;
  v_filter_ansi ← _get_param self "DisplayConfig" "Filter_ANSI_Code" Bool false;
  v_log_filter ← _get_param self "DisplayConfig" "Log_Filter" Str default_Log_Filter;
  v_exclude_filter ← _get_param self "DisplayConfig" "Exclude_Filter" Str default_Exclude_Filter;
  v_auto_close ← _get_param self "QuitConfig" "Auto_Close_Delay" Int 3;
  v_show_stats ← _get_param self "QuitConfig" "Show_Stats" Bool true;
  Some {|
    file_path := v_file_path;
    wait_for_file := v_wait_for_file;
    wait_interval := max_float f1_0 (min_float v_wait_interval f30_0);
    chunk_size := max_int 4096 (min_int v_chunk_size 131072);
    encoding := if text_in v_encoding' _SUPPORTED_ENCODINGS then v_encoding else str "utf-8";
    error_handle :=
      if text_in v_error_handle' _SUPPORTED_ERROR_HANDLES then v_error_handle else str "replace";
    interval := max_float f0_1 (min_float (div1000 v_interval_ms) f5_0);
    read_full_on_truncate := v_read_full;
    truncate_sensitivity := max_int 128 (min_int v_sensitivity 4096);
    show_status := v_show_status;
    filter_ansi := v_filter_ansi;
    include_keywords := keywords v_log_filter;
    exclude_keywords := keywords v_exclude_filter;
    auto_close_delay := max_int 0 (min_int v_auto_close 10);
    show_stats := v_show_stats
  |}.

(** *** The corruption check *)

Definition _REQUIRED_SECTIONS : list string :=
  ["LogSource"; "ReadConfig"; "MonitorConfig"; "DisplayConfig"; "QuitConfig"]%string.

(** [_REQUIRED_PARAMS], in insertion order. *)
Definition _REQUIRED_PARAMS : list (string * list string) :=
  [ ("LogSource", ["File_Path"; "Wait_For_File"; "Wait_Interval"]);
    ("ReadConfig", ["Chunk_Size"; "Encoding"; "Error_Handle"]);
    ("MonitorConfig", ["Interval_MS"; "Read_Full_On_Truncate"; "Truncate_Sensitivity"]);
    ("DisplayConfig", ["Show_Status"; "Filter_ANSI_Code"; "Log_Filter"; "Exclude_Filter"]);
    ("QuitConfig", ["Auto_Close_Delay"; "Show_Stats"]) ]%string.

(** The parser as [_is_config_corrupt] reads it: the names [sections()]
    returns, and [key in parser[sec]] for a section that exists (which is
    [has_option]). *)
Record ParserView := {
  sections : list string;
  has_option : string -> string -> bool
}.

Definition name_in (x : string) (l : list string) : bool := existsb (String.eqb x) l.

(** [all(p in self.config_parser[sec] for p in params)]: the subscript
    [self.config_parser[sec]] is evaluated for each [p] and raises
    [KeyError] for a section that does not exist ([None] here). *)
Fixpoint all_params (self : ParserView) (sec : string) (params : list string) : option bool :=
  match params with
  | [] => Some true
  | p :: rest =>
      if name_in sec (sections self) then
        if has_option self sec p then all_params self sec rest else Some false
      else None
  end.

(** The loop [for sec, params in _REQUIRED_PARAMS.items()]. *)
Fixpoint missing_param (self : ParserView) (items : list (string * list string)) : option bool :=
  match items with
  | [] => Some false
  | (sec, params) :: rest =>
      match all_params self sec params with
      | Some true => missing_param self rest
      | Some false => Some true
      | None => None
      end
  end.

(** [_is_config_corrupt] *)
Definition _is_config_corrupt (self : ParserView) : option bool :=
  if negb (forallb (fun sec => name_in sec (sections self)) _REQUIRED_SECTIONS) then Some true
  else missing_param self _REQUIRED_PARAMS.

End ConfigManager.


(** ** The monitoring engine *)

Module LogMonitor.

Import ConfigManager.

(** Exceptions (all of them subclasses of [Exception]). *)
Inductive exn :=
| FileNotFoundError
| IsADirectoryError
| PermissionError
| OSError
| AttributeError
| RuntimeError (cause : exn).

(** How a computation that does not return a value ends: an exception
    propagates, [sys.exit(code)] raises [SystemExit] (which no
    [except Exception] catches), or the observation of a running monitor
    ends (the fuel of a loop is spent). *)
Inductive abort :=
| Raise (e : exn)
| Exit (code : Z)
| OutOfFuel.

Inductive outcome (A : Type) : Type :=
| Ret (a : A)
| Abort (x : abort).
Arguments Ret {A} a.
Arguments Abort {A} x.

Record Stats := { logs : Z; bytes : Z; truncates : Z; errors : Z }.

(** The open text file object: its read position, counted in characters of
    the decoded content, and its [closed] attribute. *)
Record Handle := { pos : nat; closed : bool }.

(** The log file as the operating system shows it at one moment: the answers
    of [exists], [is_file], [os.access], whether [open], [read] and [close]
    succeed, the size [stat] reports ([None]: [stat] raises), and the decoded
    content. *)
Record FileSys := {
  fs_exists : bool;
  fs_is_file : bool;
  fs_access : bool;
  fs_open_ok : bool;
  fs_read_ok : bool;
  fs_close_ok : bool;
  fs_stat : option Z;
  fs_text : text
}.

Inductive status :=
| MsgFileMissing
| MsgValidated
| MsgOpened (size : Z)
| MsgLoadingFull
| MsgLoaded (total_bytes : Z)
| MsgReady
| MsgHandleClosed
| MsgCloseFailed
| MsgTruncated (count : Z)
| MsgStatFailed
| MsgMonitorError (e : exn)
| MsgStopping
| MsgAutoClose (delay : Z).

(** What the process does to the outside, in order. *)
Inductive event :=
| Header
| Status (msg : status)      (* [_print_status] *)
| Emit (chunk : text)        (* [print(cleaned, end='')] *)
| Sleep (secs : spec_float)  (* [time.sleep(secs)] in the two loops *)
| Countdown (i : Z)          (* a countdown line and its [time.sleep(1)] *)
| FileOpen                   (* a call of [open] *)
| FileClose                  (* a call of [close] on the handle *)
| StatsReport (s : Stats)    (* the report printed by [_print_stats] *)
| InitFailed.                (* the message and prompt of [main]'s handler *)

(** The fields of the monitor object, and the world around it: the file now,
    the states the file takes after each later sleep, the number of poll
    sleeps after which a termination signal arrives, and the events so far.
    The file changes only while the process sleeps. *)
Record Machine := {
  _file : option Handle;
  _is_running : bool;
  _last_file_size : Z;
  _stats : Stats;
  fs : FileSys;
  future : list FileSys;
  stop_request : option nat;
  out : list event
}.

Definition set_file (v : option Handle) (m : Machine) : Machine :=
  {| _file := v; _is_running := _is_running m; _last_file_size := _last_file_size m;
     _stats := _stats m; fs := fs m; future := future m; stop_request := stop_request m;
     out := out m |}.
Definition set_is_running (v : bool) (m : Machine) : Machine :=
  {| _file := _file m; _is_running := v; _last_file_size := _last_file_size m;
     _stats := _stats m; fs := fs m; future := future m; stop_request := stop_request m;
     out := out m |}.
Definition set_last_file_size (v : Z) (m : Machine) : Machine :=
  {| _file := _file m; _is_running := _is_running m; _last_file_size := v;
     _stats := _stats m; fs := fs m; future := future m; stop_request := stop_request m;
     out := out m |}.
Definition set_stats (v : Stats) (m : Machine) : Machine :=
  {| _file := _file m; _is_running := _is_running m; _last_file_size := _last_file_size m;
     _stats := v; fs := fs m; future := future m; stop_request := stop_request m;
     out := out m |}.
Definition set_world (f : FileSys) (l : list FileSys) (m : Machine) : Machine :=
  {| _file := _file m; _is_running := _is_running m; _last_file_size := _last_file_size m;
     _stats := _stats m; fs := f; future := l; stop_request := stop_request m;
     out := out m |}.
Definition set_stop_request (v : option nat) (m : Machine) : Machine :=
  {| _file := _file m; _is_running := _is_running m; _last_file_size := _last_file_size m;
     _stats := _stats m; fs := fs m; future := future m; stop_request := v;
     out := out m |}.
Definition set_out (v : list event) (m : Machine) : Machine :=
  {| _file := _file m; _is_running := _is_running m; _last_file_size := _last_file_size m;
     _stats := _stats m; fs := fs m; future := future m; stop_request := stop_request m;
     out := v |}.

(** *** The monad of the engine: state, events, exceptions and exit *)

Definition M (A : Type) : Type := Machine -> outcome A * Machine.

Definition ret {A} (a : A) : M A := fun m => (Ret a, m).
Definition bind {A B} (c : M A) (k : A -> M B) : M B := fun m =>
  match c m with
  | (Ret a, m') => k a m'
  | (Abort x, m') => (Abort x, m')
  end.

Declare Scope engine_scope.
Delimit Scope engine_scope with engine.
Notation "'let*' x ':=' c 'in' k" := (bind c (fun x => k))
  (at level 10, x name, c at level 100, k at level 200) : engine_scope.
Notation "c ;; k" := (bind c (fun _ => k))
  (at level 100, k at level 200, only parsing, right associativity) : engine_scope.
Local Open Scope engine_scope.

Definition gets {A} (f : Machine -> A) : M A := fun m => (Ret (f m), m).
Definition modify (f : Machine -> Machine) : M unit := fun m => (Ret tt, f m).
Definition raise {A} (e : exn) : M A := fun m => (Abort (Raise e), m).
Definition sys_exit {A} (code : Z) : M A := fun m => (Abort (Exit code), m).
Definition out_of_fuel {A} : M A := fun m => (Abort OutOfFuel, m).

(** [try: body except Exception as e: handler e] *)
Definition try_except {A} (body : M A) (handler : exn -> M A) : M A := fun m =>
  match body m with
  | (Abort (Raise e), m') => handler e m'
  | r => r
  end.

(** [try: body finally: fin].  The [finally] block runs however the body
    ended; when it ends by itself with an exception or an exit, that replaces
    what the body had raised. *)
Definition try_finally {A} (body : M A) (fin : M unit) : M A := fun m =>
  match body m with
  | (Abort OutOfFuel, m') => (Abort OutOfFuel, m')
  | (r, m') =>
      match fin m' with
      | (Ret _, m'') => (r, m'')
      | (Abort x, m'') => (Abort x, m'')
      end
  end.

Definition emit (e : event) : M unit := modify (fun m => set_out (out m ++ [e]) m).

Definition _print_status (msg : status) : M unit := emit (Status msg).

Definition add_errors (s : Stats) : Stats :=
  {| logs := logs s; bytes := bytes s; truncates := truncates s; errors := errors s + 1 |}.
Definition add_truncates (s : Stats) : Stats :=
  {| logs := logs s; bytes := bytes s; truncates := truncates s + 1; errors := errors s |}.
Definition add_read (nbytes nlogs : Z) (s : Stats) : Stats :=
  {| logs := logs s + nlogs; bytes := bytes s + nbytes;
     truncates := truncates s; errors := errors s |}.

(** The world moves on by one step while the process sleeps. *)
Definition advance (m : Machine) : Machine :=
  match future m with
  | [] => m
  | f :: rest => set_world f rest m
  end.

(** [len(chunk)] *)
Definition len (s : text) : Z := Z.of_nat (List.length s).

(** *** Operating-system calls on the file *)

(** [open(file_path, 'r', ...)]: a fresh handle at position 0. *)
Definition os_open : M Handle := fun m =>
  let m := set_out (out m ++ [FileOpen]) m in
  if fs_open_ok (fs m) then (Ret {| pos := 0; closed := false |}, m)
  else (Abort (Raise OSError), m).

(** [file_path.stat().st_size] *)
Definition os_stat : M Z := fun m =>
  match fs_stat (fs m) with
  | Some size => (Ret size, m)
  | None => (Abort (Raise OSError), m)
  end.

(** [self._file.read(n)]: up to [n] characters from the read position (all
    that is left when [n] is negative), moving the position past them; the
    empty string at or beyond the end of the file. *)
Definition file_read (n : Z) : M text := fun m =>
  match _file m with
  | None => (Abort (Raise AttributeError), m)
  | Some h =>
      if fs_read_ok (fs m) then
        let rest := skipn (pos h) (fs_text (fs m)) in
        let chunk := if n <? 0 then rest else firstn (Z.to_nat n) rest in
        (Ret chunk,
         set_file (Some {| pos := pos h + List.length chunk; closed := closed h |}) m)
      else (Abort (Raise OSError), m)
  end.

(** [self._file.seek(0, os.SEEK_END)] *)
Definition file_seek_end : M unit := fun m =>
  match _file m with
  | None => (Abort (Raise AttributeError), m)
  | Some h =>
      (Ret tt, set_file (Some {| pos := List.length (fs_text (fs m)); closed := closed h |}) m)
  end.

(** [self._file.close()] *)
Definition file_close : M unit := fun m =>
  let m := set_out (out m ++ [FileClose]) m in
  if fs_close_ok (fs m) then (Ret tt, m) else (Abort (Raise OSError), m).

Section Engine.

Variable params : Params.

(** [self.processor.clean] and [self.processor.filter] with the keywords set
    in [__init__]. *)
Definition processor_clean : text -> text := LogProcessor.clean (filter_ansi params).
Definition processor_filter : text -> bool :=
  LogProcessor.filter (include_keywords params) (exclude_keywords params).

(** The [while not file_path.exists()] loop of [_validate_file]. *)
Fixpoint wait_for_the_file (fuel : nat) : M unit :=
  let* present := gets (fun m => fs_exists (fs m)) in
  if present then ret tt
  else if wait_for_file params then
    match fuel with
    | O => out_of_fuel
    | S fuel' =>
        _print_status MsgFileMissing ;;
        emit (Sleep (wait_interval params)) ;;
        modify advance ;;
        wait_for_the_file fuel'
    end
  else raise FileNotFoundError.

Definition _validate_file (fuel : nat) : M unit :=
  wait_for_the_file fuel ;;
  let* regular := gets (fun m => fs_is_file (fs m)) in
  if negb regular then raise IsADirectoryError
  else
    let* readable := gets (fun m => fs_access (fs m)) in
    if negb readable then raise PermissionError
    else _print_status MsgValidated.

Definition _close_file : M unit :=
  let* f := gets _file in
  match f with
  | Some h =>
      if negb (closed h) then
        try_except
          (file_close ;; _print_status MsgHandleClosed)
          (fun e => _print_status MsgCloseFailed ;; modify (fun m => set_stats (add_errors (_stats m)) m))
      else ret tt
  | None => ret tt
  end ;;
  modify (set_file None).

(** The loop [while chunk := self._file.read(chunk_size): ...] of the full
    load.  Every non-empty chunk moves the position forward, so the loop
    ends within one more round than there are characters left. *)
Fixpoint read_all (rounds : nat) (total_bytes : Z) : M Z :=
  match rounds with
  | O => out_of_fuel
  | S rounds' =>
      let* chunk := file_read (chunk_size params) in
      match chunk with
      | [] => ret total_bytes
      | _ :: _ =>
          let total_bytes := total_bytes + len chunk in
          let cleaned := processor_clean chunk in
          (if processor_filter cleaned then emit (Emit cleaned) else ret tt) ;;
          read_all rounds' total_bytes
      end
  end.

Definition _open_file (read_full : bool) : M unit :=
  _close_file ;;
  try_except
    (let* h := os_open in
     modify (set_file (Some h)) ;;
     let* size := os_stat in
     modify (set_last_file_size size) ;;
     _print_status (MsgOpened size) ;;
     if read_full then
       _print_status MsgLoadingFull ;;
       let* rounds := gets (fun m => S (List.length (fs_text (fs m)))) in
       let* total_bytes := read_all rounds 0 in
       modify (fun m => set_stats (add_read total_bytes (total_bytes / 100) (_stats m)) m) ;;
       _print_status (MsgLoaded total_bytes)
     else
       file_seek_end ;;
       _print_status MsgReady)
    (fun e => raise (RuntimeError e)).

Definition _detect_truncate : M bool :=
  try_except
    (let* current_size := os_stat in
     let* last := gets _last_file_size in
     let size_diff := Z.abs (current_size - last) in
     if (current_size <? last) && (truncate_sensitivity params <=? size_diff) then
       modify (fun m => set_stats (add_truncates (_stats m)) m) ;;
       let* count := gets (fun m => truncates (_stats m)) in
       _print_status (MsgTruncated count) ;;
       modify (set_last_file_size current_size) ;;
       ret true
     else
       modify (set_last_file_size current_size) ;;
       ret false)
    (fun e =>
       _print_status MsgStatFailed ;;
       modify (fun m => set_stats (add_errors (_stats m)) m) ;;
       ret false).

Definition _print_stats : M unit :=
  if negb (show_stats params) then ret tt
  else
    let* s := gets _stats in
    emit (StatsReport s).

(** [for i in range(delay, 0, -1)]: a countdown line and a sleep of one
    second for [i = delay, ..., 1]. *)
Fixpoint countdown (i : nat) : M unit :=
  match i with
  | O => ret tt
  | S i' => emit (Countdown (Z.of_nat i)) ;; modify advance ;; countdown i'
  end.

Definition stop : M unit :=
  let* running := gets _is_running in
  if negb running then ret tt
  else
    _print_status MsgStopping ;;
    modify (set_is_running false) ;;
    _close_file ;;
    _print_stats ;;
    let delay := auto_close_delay params in
    (if 0 <? delay then
       _print_status (MsgAutoClose delay) ;;
       countdown (Z.to_nat delay)
     else ret tt) ;;
    sys_exit 0.

(** [time.sleep(interval)] at the end of a poll cycle.  The handler installed
    by [start] is [stop]: when the termination signal arrives during this
    sleep, [stop] runs before control returns to the loop. *)
Definition poll_sleep : M unit :=
  emit (Sleep (interval params)) ;;
  modify advance ;;
  let* req := gets stop_request in
  match req with
  | Some O => modify (set_stop_request None) ;; stop
  | Some (S k) => modify (set_stop_request (Some k))
  | None => ret tt
  end.

(** One round of the [while self._is_running] loop of [start]. *)
Definition poll_cycle : M unit :=
  let* truncated := _detect_truncate in
  if truncated && read_full_on_truncate params then
    _open_file true               (* then [continue] *)
  else
    let* f := gets _file in
    match f with
    | Some _ =>
        let* new_content := file_read (chunk_size params) in
        match new_content with
        | _ :: _ =>
            modify (fun m => set_stats (add_read (len new_content) 1 (_stats m)) m) ;;
            let cleaned := processor_clean new_content in
            if processor_filter cleaned then emit (Emit cleaned) else ret tt
        | [] => ret tt
        end
    | None => ret tt
    end ;;
    poll_sleep.

Fixpoint poll_loop (fuel : nat) : M unit :=
  let* running := gets _is_running in
  if negb running then ret tt
  else
    match fuel with
    | O => out_of_fuel
    | S fuel' => poll_cycle ;; poll_loop fuel'
    end.

Definition start (fuel : nat) : M unit :=
  emit Header ;;
  try_finally
    (try_except
       (_validate_file fuel ;;
        _open_file false ;;
        modify (set_is_running true) ;;
        poll_loop fuel)
       (fun e =>
          _print_status (MsgMonitorError e) ;;
          modify (fun m => set_stats (add_errors (_stats m)) m)))
    stop.

End Engine.

(** [LogMonitor.__init__]: the fields of a new monitor, in a world. *)
Definition new_monitor (now : FileSys) (later : list FileSys) (signal : option nat) : Machine :=
  {| _file := None; _is_running := false; _last_file_size := 0;
     _stats := {| logs := 0; bytes := 0; truncates := 0; errors := 0 |};
     fs := now; future := later; stop_request := signal; out := [] |}.

(** The [try] block of [main] from [monitor = LogMonitor()] on, for a
    configuration file that [ConfigManager] has read without creating or
    repairing it: [LogMonitor()] derives the parameters (and raises what
    [_get_param] lets through), then [start] runs; an exception that reaches
    [main] is reported and the process exits with code 1.  Not covered:
    [os.chdir] and [set_windows_codepage] in front of it, the creation and
    repair of the configuration file with [restart_program], and
    [Path.resolve()]. *)
Definition main (config : ConfigParser) (fuel : nat) : M unit :=
  try_except
    (match _validate_and_load_params config with
     | Some params => start params fuel
     | None => raise AttributeError
     end)
    (fun e => emit InitFailed ;; sys_exit 1).

(** The exit code of the process: 0 when [main] returns, the code of
    [sys.exit], 1 for an exception nobody caught; none while it still runs. *)
Definition exit_code (r : outcome unit) : option Z :=
  match r with
  | Ret _ => Some 0
  | Abort (Exit code) => Some code
  | Abort (Raise _) => Some 1
  | Abort OutOfFuel => None
  end.

Definition run_main (config : ConfigParser) (fuel : nat)
    (now : FileSys) (later : list FileSys) (signal : option nat) : option Z * list event :=
  let '(r, m) := main config fuel (new_monitor now later signal) in
  (exit_code r, out m).

End LogMonitor.

(** * Vocabulary of the statements *)

(** A matcher is sound when a match lies inside the text, takes at least one
    character, and is replaced by something no longer than itself. *)
Definition shrinking (m : matcher) : Prop :=
  forall s n r, m s = Some (n, r) ->
    (1 <= n <= List.length s)%nat /\ (List.length r <= n)%nat.

(** The first character of a text, if any, is not whitespace. *)
Definition head_not_space (s : text) : Prop :=
  forall c, hd_error s = Some c -> ConfigManager.isspace c = false.

(** A tidy list of keywords: no duplicates, and every
    keyword is non-empty, equal to its own [strip], begins and ends with a
    character that is not whitespace (so it is not made of whitespace). *)
Definition tidy (kws : list text) : Prop :=
  NoDup kws /\
  Forall (fun k => k <> [] /\ ConfigManager.strip k = k /\
                   head_not_space k /\ head_not_space (rev k) /\
                   exists c, In c k /\ ConfigManager.isspace c = false) kws.

(** The derivation returns a bundle unless a getter raises an exception that
    [_get_param] does not catch. *)
Definition no_other_error (config : ConfigManager.ConfigParser) : Prop :=
  forall sec key,
    ConfigManager.getboolean config sec key <> ConfigManager.OtherError /\
    ConfigManager.getint config sec key <> ConfigManager.OtherError /\
    ConfigManager.getfloat config sec key <> ConfigManager.OtherError /\
    ConfigManager.get config sec key <> ConfigManager.OtherError.


(** The chunks printed among some events, in order. *)
Definition emitted (evs : list LogMonitor.event) : list text :=
  flat_map (fun e => match e with LogMonitor.Emit chunk => [chunk] | _ => [] end) evs.

(** How many statistics reports, [close] calls and loop sleeps there are
    among some events. *)
Definition reports (evs : list LogMonitor.event) : nat :=
  List.length (List.filter (fun e => match e with LogMonitor.StatsReport _ => true | _ => false end) evs).
Definition closes (evs : list LogMonitor.event) : nat :=
  List.length (List.filter (fun e => match e with LogMonitor.FileClose => true | _ => false end) evs).
Definition sleeps (evs : list LogMonitor.event) : nat :=
  List.length (List.filter (fun e => match e with LogMonitor.Sleep _ => true | _ => false end) evs).

(** The file shows size [size] to [stat]; the file grows by [appended]. *)
Definition resize (size : Z) (f : LogMonitor.FileSys) : LogMonitor.FileSys :=
  {| LogMonitor.fs_exists := LogMonitor.fs_exists f;
     LogMonitor.fs_is_file := LogMonitor.fs_is_file f;
     LogMonitor.fs_access := LogMonitor.fs_access f;
     LogMonitor.fs_open_ok := LogMonitor.fs_open_ok f;
     LogMonitor.fs_read_ok := LogMonitor.fs_read_ok f;
     LogMonitor.fs_close_ok := LogMonitor.fs_close_ok f;
     LogMonitor.fs_stat := Some size;
     LogMonitor.fs_text := LogMonitor.fs_text f |}.
Definition grow (appended : text) (f : LogMonitor.FileSys) : LogMonitor.FileSys :=
  {| LogMonitor.fs_exists := LogMonitor.fs_exists f;
     LogMonitor.fs_is_file := LogMonitor.fs_is_file f;
     LogMonitor.fs_access := LogMonitor.fs_access f;
     LogMonitor.fs_open_ok := LogMonitor.fs_open_ok f;
     LogMonitor.fs_read_ok := LogMonitor.fs_read_ok f;
     LogMonitor.fs_close_ok := LogMonitor.fs_close_ok f;
     LogMonitor.fs_stat := LogMonitor.fs_stat f;
     LogMonitor.fs_text := LogMonitor.fs_text f ++ appended |}.

(** The answers of [_detect_truncate] to a sequence of observed sizes. *)
Fixpoint observe (p : ConfigManager.Params) (sizes : list Z) (m : LogMonitor.Machine)
    : list (LogMonitor.outcome bool) :=
  match sizes with
  | [] => []
  | size :: rest =>
      let '(r, m') :=
        LogMonitor._detect_truncate p
          (LogMonitor.set_world (resize size (LogMonitor.fs m)) (LogMonitor.future m) m) in
      r :: observe p rest m'
  end.

(** The test of [_detect_truncate] on sizes [current] and [last]. *)
Definition shrunk (p : ConfigManager.Params) (current last : Z) : bool :=
  (current <? last) && (ConfigManager.truncate_sensitivity p <=? Z.abs (current - last)).

(** A poll cycle that starts in [m] reopens the file with a full replay. *)
Definition replays (p : ConfigManager.Params) (m : LogMonitor.Machine) : bool :=
  match LogMonitor.fs_stat (LogMonitor.fs m) with
  | Some current =>
      shrunk p current (LogMonitor._last_file_size m) && ConfigManager.read_full_on_truncate p
  | None => false
  end.

(** The incremental read of a poll cycle, if there is one, does not raise. *)
Definition can_read (m : LogMonitor.Machine) : bool :=
  match LogMonitor._file m with
  | Some _ => LogMonitor.fs_read_ok (LogMonitor.fs m)
  | None => true
  end.

(** The termination signal arrives during the next poll sleep. *)
Definition stop_due (m : LogMonitor.Machine) : bool :=
  match LogMonitor.stop_request m with
  | Some O => true
  | _ => false
  end.

(** The startup failures: the file is missing and waiting is disabled, the
    path is not a regular file, it is not readable, [open] fails, or [stat]
    fails right after [open]. *)
Definition startup_failure (p : ConfigManager.Params) (now : LogMonitor.FileSys) : bool :=
  if negb (LogMonitor.fs_exists now) then negb (ConfigManager.wait_for_file p)
  else
    negb (LogMonitor.fs_is_file now) || negb (LogMonitor.fs_access now)
    || negb (LogMonitor.fs_open_ok now)
    || match LogMonitor.fs_stat now with Some _ => false | None => true end.

(** A parser that answers every key with the defaults, except that
    [Wait_For_File] is [False]; a path where there is no file; a regular
    readable file with a given content. *)
Definition config_no_wait : ConfigManager.ConfigParser :=
  {| ConfigManager.has_section := fun _ => true;
     ConfigManager.getboolean := fun _ key =>
       if String.eqb key "Wait_For_File" then ConfigManager.Got false
       else ConfigManager.NoOptionError;
     ConfigManager.getint := fun _ _ => ConfigManager.NoOptionError;
     ConfigManager.getfloat := fun _ _ => ConfigManager.NoOptionError;
     ConfigManager.get := fun _ _ => ConfigManager.NoOptionError |}.

Definition no_file : LogMonitor.FileSys :=
  {| LogMonitor.fs_exists := false; LogMonitor.fs_is_file := false;
     LogMonitor.fs_access := false; LogMonitor.fs_open_ok := false;
     LogMonitor.fs_read_ok := false; LogMonitor.fs_close_ok := true;
     LogMonitor.fs_stat := None; LogMonitor.fs_text := [] |}.

Definition plain_file (content : text) : LogMonitor.FileSys :=
  {| LogMonitor.fs_exists := true; LogMonitor.fs_is_file := true;
     LogMonitor.fs_access := true; LogMonitor.fs_open_ok := true;
     LogMonitor.fs_read_ok := true; LogMonitor.fs_close_ok := true;
     LogMonitor.fs_stat := Some (LogMonitor.len content); LogMonitor.fs_text := content |}.

(** The default bundle (every key answered with its default), and variants. *)
Definition default_params : ConfigManager.Params :=
  {| ConfigManager.file_path := ConfigManager.default_File_Path;
     ConfigManager.wait_for_file := true;
     ConfigManager.wait_interval := ConfigManager.f5_0;
     ConfigManager.chunk_size := 32768;
     ConfigManager.encoding := str "utf-8";
     ConfigManager.error_handle := str "replace";
     ConfigManager.interval := ConfigManager.f1_0;
     ConfigManager.read_full_on_truncate := true;
     ConfigManager.truncate_sensitivity := 1024;
     ConfigManager.show_status := true;
     ConfigManager.filter_ansi := false;
     ConfigManager.include_keywords := [str "ERROR"; str "INFO"; str "WARN"];
     ConfigManager.exclude_keywords := [str "DEBUG"];
     ConfigManager.auto_close_delay := 3;
     ConfigManager.show_stats := true |}.

Definition quiet_params : ConfigManager.Params :=
  {| ConfigManager.file_path := ConfigManager.default_File_Path;
     ConfigManager.wait_for_file := true;
     ConfigManager.wait_interval := ConfigManager.f5_0;
     ConfigManager.chunk_size := 32768;
     ConfigManager.encoding := str "utf-8";
     ConfigManager.error_handle := str "replace";
     ConfigManager.interval := ConfigManager.f1_0;
     ConfigManager.read_full_on_truncate := true;
     ConfigManager.truncate_sensitivity := 1024;
     ConfigManager.show_status := true;
     ConfigManager.filter_ansi := false;
     ConfigManager.include_keywords := [str "ERROR"; str "INFO"; str "WARN"];
     ConfigManager.exclude_keywords := [str "DEBUG"];
     ConfigManager.auto_close_delay := 3;
     ConfigManager.show_stats := false |}.

(** A monitor that is polling an open file, positioned at [position], whose
    last observed size was [last]. *)
Definition polling (now : LogMonitor.FileSys) (position : nat) (last : Z) : LogMonitor.Machine :=
  {| LogMonitor._file := Some {| LogMonitor.pos := position; LogMonitor.closed := false |};
     LogMonitor._is_running := true;
     LogMonitor._last_file_size := last;
     LogMonitor._stats :=
       {| LogMonitor.logs := 0; LogMonitor.bytes := 0;
          LogMonitor.truncates := 0; LogMonitor.errors := 0 |};
     LogMonitor.fs := now; LogMonitor.future := [];
     LogMonitor.stop_request := None; LogMonitor.out := [] |}.

(** A computation always ends in a way that [ok] allows. *)
Definition ends_in {A} (ok : LogMonitor.abort -> Prop) (c : LogMonitor.M A) : Prop :=
  forall m, match fst (c m) with
            | LogMonitor.Abort x => ok x
            | LogMonitor.Ret _ => True
            end.

(** No exit with a code other than 0; and, on top of that, no exception. *)
Definition zero_exit (x : LogMonitor.abort) : Prop :=
  match x with
  | LogMonitor.Exit code => code = 0
  | _ => True
  end.
Definition zero_exit_no_raise (x : LogMonitor.abort) : Prop :=
  match x with
  | LogMonitor.Exit code => code = 0
  | LogMonitor.Raise _ => False
  | LogMonitor.OutOfFuel => True
  end.

(** [x] is a NaN; the value Python's [max(lo, min(x, hi))] takes on floats:
    a NaN loses every comparison, so [min] keeps it and [max] drops it. *)
Definition is_nan (x : spec_float) : bool :=
  match x with
  | S754_nan => true
  | _ => false
  end.
Definition clamp_float_value (lo hi x : spec_float) : spec_float :=
  if is_nan x then lo
  else if SFltb x lo then lo
  else if SFltb hi x then hi
  else x.

(** A getter that gives no value: the key is missing or does not convert. *)
Definition unanswered {A} (l : ConfigManager.lookup A) : Prop :=
  l = ConfigManager.NoOptionError \/ l = ConfigManager.ValueError.

(** A parser that gives no value for any key: every section is missing, or
    the key is missing, or the value does not convert. *)
Definition falls_back (config : ConfigManager.ConfigParser) : Prop :=
  forall sec key,
    ConfigManager.has_section config sec = false \/
    (unanswered (ConfigManager.getboolean config sec key) /\
     unanswered (ConfigManager.getint config sec key) /\
     unanswered (ConfigManager.getfloat config sec key) /\
     unanswered (ConfigManager.get config sec key)).

(** A parser in which nothing is configured. *)
Definition empty_config : ConfigManager.ConfigParser :=
  {| ConfigManager.has_section := fun _ => false;
     ConfigManager.getboolean := fun _ _ => ConfigManager.NoOptionError;
     ConfigManager.getint := fun _ _ => ConfigManager.NoOptionError;
     ConfigManager.getfloat := fun _ _ => ConfigManager.NoOptionError;
     ConfigManager.get := fun _ _ => ConfigManager.NoOptionError |}.

(** A parser whose numeric keys all read 1000000 (as an integer) and NaN (as
    a float), the other keys being missing. *)
Definition wild_config : ConfigManager.ConfigParser :=
  {| ConfigManager.has_section := fun _ => true;
     ConfigManager.getboolean := fun _ _ => ConfigManager.NoOptionError;
     ConfigManager.getint := fun _ _ => ConfigManager.Got 1000000;
     ConfigManager.getfloat := fun _ _ => ConfigManager.Got S754_nan;
     ConfigManager.get := fun _ _ => ConfigManager.NoOptionError |}.

(** No counter of [s] is above its value in [s']. *)
Definition stats_le (s s' : LogMonitor.Stats) : Prop :=
  LogMonitor.logs s <= LogMonitor.logs s' /\ LogMonitor.bytes s <= LogMonitor.bytes s' /\
  LogMonitor.truncates s <= LogMonitor.truncates s' /\
  LogMonitor.errors s <= LogMonitor.errors s'.

(** A computation lowers no counter, and what it returns satisfies [Q]. *)
Definition grows {A} (Q : A -> Prop) (c : LogMonitor.M A) : Prop :=
  forall m,
    stats_le (LogMonitor._stats m) (LogMonitor._stats (snd (c m))) /\
    match fst (c m) with
    | LogMonitor.Ret a => Q a
    | LogMonitor.Abort _ => True
    end.

(** The handle is held and open. *)
Definition holds_open (m : LogMonitor.Machine) : bool :=
  match LogMonitor._file m with
  | Some h => negb (LogMonitor.closed h)
  | None => false
  end.

(** The countdown lines among some events. *)
Definition countdowns (evs : list LogMonitor.event) : list Z :=
  flat_map (fun e => match e with LogMonitor.Countdown i => [i] | _ => [] end) evs.

(** What the incremental read of a poll cycle that starts in [m] returns. *)
Definition next_chunk (p : ConfigManager.Params) (m : LogMonitor.Machine) : text :=
  match LogMonitor._file m with
  | Some h =>
      let rest := skipn (LogMonitor.pos h) (LogMonitor.fs_text (LogMonitor.fs m)) in
      if ConfigManager.chunk_size p <? 0 then rest
      else firstn (Z.to_nat (ConfigManager.chunk_size p)) rest
  | None => []
  end.

(** What a poll cycle prints of a chunk it has read. *)
Definition printed (p : ConfigManager.Params) (chunk : text) : list text :=
  match chunk with
  | [] => []
  | _ :: _ =>
      if LogMonitor.processor_filter p (LogMonitor.processor_clean p chunk)
      then [LogMonitor.processor_clean p chunk]
      else []
  end.

(** The size check of a poll cycle that starts in [m] reports a truncation. *)
Definition truncation_seen (p : ConfigManager.Params) (m : LogMonitor.Machine) : bool :=
  match LogMonitor.fs_stat (LogMonitor.fs m) with
  | Some current => shrunk p current (LogMonitor._last_file_size m)
  | None => false
  end.

(** A file that exists, is regular and readable, but cannot be opened. *)
Definition locked_file : LogMonitor.FileSys :=
  {| LogMonitor.fs_exists := true; LogMonitor.fs_is_file := true;
     LogMonitor.fs_access := true; LogMonitor.fs_open_ok := false;
     LogMonitor.fs_read_ok := true; LogMonitor.fs_close_ok := true;
     LogMonitor.fs_stat := Some 0; LogMonitor.fs_text := [] |}.

(** A file that opens but whose content cannot be read (say, bytes that do
    not decode under the [strict] policy). *)
Definition unreadable_file (size : Z) : LogMonitor.FileSys :=
  {| LogMonitor.fs_exists := true; LogMonitor.fs_is_file := true;
     LogMonitor.fs_access := true; LogMonitor.fs_open_ok := true;
     LogMonitor.fs_read_ok := false; LogMonitor.fs_close_ok := true;
     LogMonitor.fs_stat := Some size; LogMonitor.fs_text := [] |}.

(** The [try: ... except Exception] block of [start], which its
    [finally: self.stop()] follows. *)
Definition start_body (p : ConfigManager.Params) (fuel : nat) : LogMonitor.M unit :=
  LogMonitor.try_except
    (LogMonitor.bind (LogMonitor._validate_file p fuel) (fun _ =>
     LogMonitor.bind (LogMonitor._open_file p false) (fun _ =>
     LogMonitor.bind (LogMonitor.modify (LogMonitor.set_is_running true)) (fun _ =>
     LogMonitor.poll_loop p fuel))))
    (fun e =>
       LogMonitor.bind (LogMonitor._print_status (LogMonitor.MsgMonitorError e)) (fun _ =>
       LogMonitor.modify
         (fun m => LogMonitor.set_stats (LogMonitor.add_errors (LogMonitor._stats m)) m))).

(** The file can be opened and read. *)
Definition healthy (f : LogMonitor.FileSys) : bool :=
  LogMonitor.fs_open_ok f && LogMonitor.fs_read_ok f.

(** Nothing is going to end the monitoring: no termination signal is
    pending, and the file stays healthy in every world to come. *)
Definition undisturbed (m : LogMonitor.Machine) : Prop :=
  LogMonitor.stop_request m = None /\
  healthy (LogMonitor.fs m) = true /\
  forallb healthy (LogMonitor.future m) = true.




(** The chunks that the calls [read(n)] of the load loop return on a text,
    one after the other, up to the empty one that ends the loop. *)
Fixpoint read_chunks (rounds n : nat) (s : text) : list text :=
  match rounds with
  | O => []
  | S rounds' =>
      match firstn n s with
      | [] => []
      | chunk => chunk :: read_chunks rounds' n (skipn n s)
      end
  end.

Definition chunks_of (p : ConfigManager.Params) (content : text) : list text :=
  read_chunks (List.length content) (Z.to_nat (ConfigManager.chunk_size p)) content.

(** What a full replay prints of a content: the cleaned chunks that pass the
    keyword filter. *)
Definition replayed (p : ConfigManager.Params) (content : text) : list text :=
  List.filter (LogMonitor.processor_filter p)
    (List.map (LogMonitor.processor_clean p) (chunks_of p content)).
(** * Properties of the text layer *)

Lemma starts_with_spec kw s :
  starts_with kw s = true <-> exists r, s = kw ++ r.
Proof.
  revert s. induction kw as [|k kw IH]; intros s; simpl.
  - split; [intros _; now exists s | reflexivity].
  - destruct s as [|c s]; simpl.
    + split; [discriminate | intros [r Hr]; discriminate].
    + rewrite andb_true_iff, N.eqb_eq, IH. split.
      * intros [-> [r ->]]. now exists r.
      * intros [r Hr]. injection Hr as -> ->. split; [reflexivity | now exists r].
Qed.

Lemma contains_spec kw s : contains kw s = true <-> substring kw s.
Proof.
  unfold substring. induction s as [|c s IH]; simpl.
  - rewrite orb_false_r, starts_with_spec. split.
    + intros [r Hr]. exists [], r. exact Hr.
    + intros [l [r Hr]]. destruct l; [now exists r | discriminate].
  - rewrite orb_true_iff, starts_with_spec, IH. split.
    + intros [[r Hr] | [l [r Hr]]].
      * exists [], r. exact Hr.
      * exists (c :: l), r. simpl. now rewrite Hr.
    + intros [l [r Hr]]. destruct l as [|c' l]; simpl in Hr.
      * left. now exists r.
      * right. injection Hr as _ Hr. now exists l, r.
Qed.

Lemma exclude_hit_spec excl content :
  LogProcessor.exclude_hit excl content = true <->
  exists kw, In kw excl /\ substring kw content.
Proof.
  induction excl as [|kw excl IH]; simpl.
  - split; [discriminate | intros [kw [[] _]]].
  - destruct (contains kw content) eqn:E.
    + split; [intros _ | reflexivity]. exists kw. split; [now left | now apply contains_spec].
    + rewrite IH. split.
      * intros [k [Hin Hk]]. exists k. split; [now right | assumption].
      * intros [k [[<- | Hin] Hk]].
        -- apply contains_spec in Hk. congruence.
        -- now exists k.
Qed.

Lemma existsb_contains_spec kws content :
  existsb (fun kw => contains kw content) kws = true <->
  exists kw, In kw kws /\ substring kw content.
Proof.
  rewrite existsb_exists. split; intros [kw [Hin Hk]]; exists kw; split; try assumption;
    now apply contains_spec.
Qed.

(** C1. [filter] returns false when the text contains an exclude keyword as a
    literal substring, whatever the include keywords; otherwise it returns
    true exactly when the include list is empty or the text contains one of
    the include keywords as a literal (code point for code point) substring. *)
Theorem filter_spec (include_keywords exclude_keywords : list text) (content : text) :
  ((exists kw, In kw exclude_keywords /\ substring kw content) ->
     LogProcessor.filter include_keywords exclude_keywords content = false) /\
  (~ (exists kw, In kw exclude_keywords /\ substring kw content) ->
     (LogProcessor.filter include_keywords exclude_keywords content = true <->
      include_keywords = [] \/ exists kw, In kw include_keywords /\ substring kw content)).
Proof.
  unfold LogProcessor.filter. split.
  - intros H. apply exclude_hit_spec in H. now rewrite H.
  - intros H. destruct (LogProcessor.exclude_hit exclude_keywords content) eqn:E.
    + exfalso. apply H. now apply exclude_hit_spec.
    + destruct include_keywords as [|k ks].
      * split; [now left | reflexivity].
      * rewrite existsb_contains_spec. split.
        -- intros Hex. now right.
        -- intros [Hnil | Hex]; [discriminate | assumption].
Qed.

(** ** Substitution never lengthens, and leaves a text without a match alone *)

Lemma re_sub_length m :
  shrinking m ->
  forall s k, (List.length (re_sub m k s) + Nat.min k (List.length s) <= List.length s)%nat.
Proof.
  intros Hm. induction s as [|c s IH]; intros k; simpl.
  - lia.
  - destruct k as [|k].
    + destruct (m (c :: s)) as [[n r]|] eqn:E.
      * apply Hm in E. simpl in E. rewrite length_app.
        specialize (IH (Nat.pred n)). lia.
      * simpl. specialize (IH 0%nat). lia.
    + specialize (IH k). lia.
Qed.

Lemma re_sub_no_match m s : re_search m s = false -> re_sub m 0 s = s.
Proof.
  induction s as [|c s IH]; simpl; [reflexivity|].
  destruct (m (c :: s)); [discriminate|].
  intros H. now rewrite IH.
Qed.

Lemma alternation_inv table s n r :
  LogProcessor.alternation table s = Some (n, r) ->
  exists k, In (k, r) table /\ n = List.length k /\ starts_with k s = true.
Proof.
  induction table as [|[k v] table IH]; simpl; [discriminate|].
  destruct (starts_with k s) eqn:E.
  - intros [= <- <-]. exists k. auto.
  - intros H. destruct (IH H) as [k' [Hin Hk']]. exists k'. auto.
Qed.

Lemma char_fix_shrinking : shrinking LogProcessor.char_fix_pattern.
Proof.
  intros s n r H. apply alternation_inv in H as [k [Hin [-> Hpre]]].
  apply starts_with_spec in Hpre as [rest ->]. rewrite length_app.
  simpl in Hin. destruct Hin as [E | [E | [E | []]]]; injection E as <- <-;
    simpl; lia.
Qed.

Lemma star_length cls s :
  List.length s = (fst (LogProcessor.star cls s) + List.length (snd (LogProcessor.star cls s)))%nat.
Proof.
  induction s as [|c s IH]; simpl; [reflexivity|].
  destruct (cls c); [|reflexivity].
  destruct (LogProcessor.star cls s) as [n r]. simpl in *. lia.
Qed.

Lemma ansi_shrinking : shrinking LogProcessor.ansi_pattern.
Proof.
  intros s n r. unfold LogProcessor.ansi_pattern.
  destruct s as [|e [|c rest]]; try discriminate.
  destruct (negb (N.eqb e LogProcessor.ESC)); [discriminate|].
  destruct (LogProcessor.in_range 64 90 c || LogProcessor.in_range 92 95 c)%N.
  { intros [= <- <-]. simpl. lia. }
  destruct (N.eqb c 91); [|discriminate].
  pose proof (star_length (LogProcessor.in_range 48 63)%N rest) as H1.
  destruct (LogProcessor.star (LogProcessor.in_range 48 63)%N rest) as [n1 r1].
  pose proof (star_length (LogProcessor.in_range 32 47)%N r1) as H2.
  destruct (LogProcessor.star (LogProcessor.in_range 32 47)%N r1) as [n2 r2].
  destruct r2 as [|f r2]; [discriminate|].
  destruct (LogProcessor.in_range 64 126 f)%N; [|discriminate].
  intros [= <- <-]. simpl in *. lia.
Qed.

(** C9. [clean] never lengthens its input, with ANSI filtering on or off:
    each repair of [_CHAR_FIX_MAP] is shorter than the token it replaces, and
    stripping an escape sequence only deletes characters. *)
Theorem clean_length (filter_ansi : bool) (content : text) :
  (List.length (LogProcessor.clean filter_ansi content) <= List.length content)%nat.
Proof.
  unfold LogProcessor.clean.
  pose proof (re_sub_length _ char_fix_shrinking content 0) as H1.
  destruct filter_ansi.
  - pose proof (re_sub_length _ ansi_shrinking
                  (re_sub LogProcessor.char_fix_pattern 0 content) 0) as H2.
    lia.
  - lia.
Qed.

Lemma re_search_inv m s :
  re_search m s = true -> exists l t, s = l ++ t /\ m t <> None.
Proof.
  induction s as [|c s IH]; simpl; [discriminate|].
  destruct (m (c :: s)) eqn:E.
  - intros _. exists [], (c :: s). split; [reflexivity | congruence].
  - intros H. destruct (IH H) as [l [t [-> Ht]]]. exists (c :: l), t. auto.
Qed.
Lemma char_fix_needs_Ex s :
  LogProcessor.char_fix_pattern s <> None -> substring (str "Ex") s.
Proof.
  destruct (LogProcessor.char_fix_pattern s) as [[n r]|] eqn:E; [intros _ | congruence].
  apply alternation_inv in E as [k [Hin [_ Hpre]]].
  apply starts_with_spec in Hpre as [rest ->].
  simpl in Hin. destruct Hin as [E | [E | [E | []]]]; injection E as <- _.
  - exists (str "main"), rest. reflexivity.
  - exists (str "Server thread"), rest. reflexivity.
  - exists (str "Worker-Main-"), rest. reflexivity.
Qed.
Lemma ansi_needs_ESC s :
  LogProcessor.ansi_pattern s <> None -> exists rest, s = LogProcessor.ESC :: rest.
Proof.
  unfold LogProcessor.ansi_pattern. destruct s as [|e [|c rest]]; try congruence.
  destruct (N.eqb_spec e LogProcessor.ESC) as [->|]; simpl; [eauto | congruence].
Qed.


(** ** When a second [clean] changes nothing *)































(** The same for the ANSI stage alone: an escape character in front of a
    colour sequence and the tail of another. *)
Lemma ansi_strip_not_idempotent :
  let s := [27%N; 27%N] ++ str "[0m[0m" in
  LogProcessor.clean true s = [27%N] ++ str "[0m" /\
  LogProcessor.clean true (LogProcessor.clean true s) = [].
Proof. split; reflexivity. Qed.

(** * Properties of the configuration layer *)

Section Clamping.

Import ConfigManager.

Lemma clamp_int lo hi x :
  lo <= hi -> lo <= max_int lo (min_int x hi) <= hi.
Proof.
  intros H. unfold max_int, min_int, py_max, py_min.
  destruct (Z.ltb_spec hi x); destruct (Z.ltb_spec lo hi);
    try destruct (Z.ltb_spec lo x); lia.
Qed.

(** Comparing the other way round gives the opposite answer. *)
Lemma SFcompare_swap a b : SFcompare a b = option_map CompOpp (SFcompare b a).
Proof.
  destruct a as [sa|sa| |sa ma ea], b as [sb|sb| |sb mb eb]; simpl;
    try reflexivity; try (destruct sa; reflexivity); try (destruct sb; reflexivity);
    try (destruct sa, sb; reflexivity).
  change (Pos.compare_cont Eq ma mb) with (Pos.compare ma mb).
  change (Pos.compare_cont Eq mb ma) with (Pos.compare mb ma).
  rewrite (Z.compare_antisym ea eb), (Pos.compare_antisym ma mb).
  destruct sa, sb; try reflexivity; f_equal;
    destruct (ea ?= eb); simpl; try reflexivity;
    destruct (ma ?= mb)%positive; reflexivity.
Qed.

Lemma SFltb_SFleb a b : SFltb a b = true -> SFleb a b = true.
Proof. unfold SFltb, SFleb. destruct (SFcompare a b) as [[]|]; congruence. Qed.

(** Among two numbers, "not above" is "at most"; a NaN is neither. *)
Lemma SFleb_of_not_gt lo hi x :
  SFleb hi hi = true -> SFltb lo x = true -> SFltb hi x = false -> SFleb x hi = true.
Proof.
  unfold SFltb, SFleb. rewrite (SFcompare_swap x hi).
  destruct (SFcompare hi x) as [[]|] eqn:E; simpl; try congruence.
  intros Hhi Hx _. exfalso.
  destruct x, hi; simpl in E; try discriminate;
    simpl in Hhi; try discriminate;
    destruct lo; simpl in Hx; discriminate.
Qed.

Lemma clamp_float lo hi x :
  SFleb lo lo = true -> SFleb hi hi = true -> SFleb lo hi = true ->
  SFleb lo (max_float lo (min_float x hi)) = true /\
  SFleb (max_float lo (min_float x hi)) hi = true.
Proof.
  intros Hlo Hhi Hlohi. unfold max_float, min_float, py_max, py_min.
  destruct (SFltb hi x) eqn:E1.
  - destruct (SFltb lo hi) eqn:E2; auto.
  - destruct (SFltb lo x) eqn:E2.
    + split; [now apply SFltb_SFleb | now apply (SFleb_of_not_gt lo)].
    + auto.
Qed.

End Clamping.

Section Keywords.

Import ConfigManager.

Lemma lstrip_head s : head_not_space (lstrip s).
Proof.
  induction s as [|c s IH]; simpl; [intros c [=]|].
  destruct (isspace c) eqn:E; [exact IH|].
  intros c' [= <-]. exact E.
Qed.

Lemma lstrip_id s : head_not_space s -> lstrip s = s.
Proof.
  destruct s as [|c s]; simpl; [reflexivity|].
  intros H. now rewrite (H c eq_refl).
Qed.

(** [lstrip] takes a run of whitespace off the front. *)
Lemma lstrip_split s : exists l, s = l ++ lstrip s /\ Forall (fun c => isspace c = true) l.
Proof.
  induction s as [|c s [l [IH1 IH2]]]; simpl.
  - exists []. auto.
  - destruct (isspace c) eqn:E.
    + exists (c :: l). split; [simpl; now rewrite <- IH1 | now constructor].
    + exists []. auto.
Qed.

Lemma rstrip_split s : exists l, s = rstrip s ++ l /\ Forall (fun c => isspace c = true) l.
Proof.
  unfold rstrip. destruct (lstrip_split (rev s)) as [l [H1 H2]].
  exists (rev l). split.
  - rewrite <- rev_app_distr, <- H1. now rewrite rev_involutive.
  - apply List.Forall_forall. intros c Hc. apply in_rev in Hc.
    rewrite List.Forall_forall in H2. now apply H2.
Qed.

Lemma rstrip_head s : head_not_space s -> head_not_space (rstrip s).
Proof.
  intros H c Hc. destruct (rstrip_split s) as [l [E _]].
  apply H. rewrite E. destruct (rstrip s); [discriminate | exact Hc].
Qed.

Lemma rstrip_last s : head_not_space (rev (rstrip s)).
Proof. unfold rstrip. rewrite rev_involutive. apply lstrip_head. Qed.

Lemma rstrip_id s : head_not_space (rev s) -> rstrip s = s.
Proof. intros H. unfold rstrip. rewrite (lstrip_id _ H). apply rev_involutive. Qed.

Lemma strip_ends s : head_not_space (strip s) /\ head_not_space (rev (strip s)).
Proof.
  unfold strip. split; [apply rstrip_head, lstrip_head | apply rstrip_last].
Qed.

Lemma strip_idempotent s : strip (strip s) = strip s.
Proof.
  destruct (strip_ends s) as [H1 H2].
  unfold strip at 1. rewrite (lstrip_id _ H1). now apply rstrip_id.
Qed.

Lemma keywords_elem raw k :
  In k (keywords raw) <->
  exists piece, In piece (split 44%N raw) /\ strip piece <> [] /\ k = strip piece.
Proof.
  unfold keywords. rewrite <- list_elem_of_In, elem_of_elements, elem_of_list_to_set,
    list_elem_of_In, in_map_iff.
  split.
  - intros [piece [<- Hin]]. apply filter_In in Hin as [Hin Hne].
    exists piece. repeat split; try assumption. intros E. now rewrite E in Hne.
  - intros [piece [Hin [Hne ->]]]. exists piece. split; [reflexivity|].
    apply filter_In. split; [assumption|]. destruct (strip piece); [congruence | reflexivity].
Qed.

Lemma keywords_tidy raw : tidy (keywords raw).
Proof.
  split.
  - unfold keywords. apply NoDup_elements.
  - apply List.Forall_forall. intros k Hk. apply keywords_elem in Hk as [piece [_ [Hne ->]]].
    destruct (strip_ends piece) as [H1 H2].
    repeat split; try assumption.
    + apply strip_idempotent.
    + destruct (strip piece) as [|c rest] eqn:E; [congruence|].
      exists c. split; [now left | now apply H1].
Qed.

End Keywords.

(** C7. Whatever the parser returns for each key (a value of any size, a NaN
    or an infinity, a missing key or section, a value that does not convert:
    the last three give the default), the derived [wait_interval] lies in
    [1, 30], [chunk_size] in [4096, 131072], [interval] is the millisecond
    setting divided by 1000 and then clamped, and lies in [0.1, 5.0],
    [truncate_sensitivity] lies in [128, 4096] and [auto_close_delay] in
    [0, 10]. *)
Theorem clamped_params_in_range (config : ConfigManager.ConfigParser) :
  match ConfigManager._validate_and_load_params config with
  | Some p =>
      (SFleb ConfigManager.f1_0 (ConfigManager.wait_interval p) = true /\
       SFleb (ConfigManager.wait_interval p) ConfigManager.f30_0 = true) /\
      4096 <= ConfigManager.chunk_size p <= 131072 /\
      (exists ms,
         ConfigManager._get_param config "MonitorConfig" "Interval_MS"
           ConfigManager.Float ConfigManager.f1000 = Some ms /\
         ConfigManager.interval p =
           ConfigManager.max_float ConfigManager.f0_1
             (ConfigManager.min_float (ConfigManager.div1000 ms) ConfigManager.f5_0)) /\
      (SFleb ConfigManager.f0_1 (ConfigManager.interval p) = true /\
       SFleb (ConfigManager.interval p) ConfigManager.f5_0 = true) /\
      128 <= ConfigManager.truncate_sensitivity p <= 4096 /\
      0 <= ConfigManager.auto_close_delay p <= 10
  | None => True
  end.
Proof.
  unfold ConfigManager._validate_and_load_params.
  repeat match goal with
         | |- context [ConfigManager._get_param ?c ?s ?k ?d ?v] =>
             destruct (ConfigManager._get_param c s k d v) eqn:?; simpl; [|exact I]
         end.
  repeat split; try (apply clamp_int; lia); try (apply clamp_float; reflexivity).
  eexists. split; reflexivity.
Qed.

Lemma _get_param_returns {A} config sec key (dt : ConfigManager.dtype A) default :
  no_other_error config ->
  exists v, ConfigManager._get_param config sec key dt default = Some v.
Proof.
  intros H. destruct (H sec key) as [Hb [Hi [Hf Hs]]].
  unfold ConfigManager._get_param.
  destruct (negb (ConfigManager.has_section config sec)); [eauto|].
  destruct dt.
  - destruct (ConfigManager.getboolean config sec key); try congruence; eauto.
  - destruct (ConfigManager.getint config sec key); try congruence; eauto.
  - destruct (ConfigManager.getfloat config sec key); try congruence; eauto.
  - destruct (ConfigManager.get config sec key); try congruence; eauto.
Qed.

Lemma _validate_and_load_params_returns config :
  no_other_error config ->
  exists p, ConfigManager._validate_and_load_params config = Some p.
Proof.
  intros H. unfold ConfigManager._validate_and_load_params.
  repeat match goal with
         | |- context [ConfigManager._get_param ?c ?s ?k ?d ?v] =>
             let E := fresh "E" in
             destruct (_get_param_returns c s k d v H) as [? E]; rewrite E; simpl
         end.
  eauto.
Qed.

(** C10. For every raw string, the keywords derived from it have no
    duplicates, and each is non-empty, is its own [strip], and begins and
    ends with a character that is not whitespace; the [include_keywords] and
    [exclude_keywords] of every derived bundle are such lists. *)
Theorem derived_keywords_tidy :
  (forall raw : text, tidy (ConfigManager.keywords raw)) /\
  (forall config : ConfigManager.ConfigParser,
     match ConfigManager._validate_and_load_params config with
     | Some p =>
         tidy (ConfigManager.include_keywords p) /\ tidy (ConfigManager.exclude_keywords p)
     | None => True
     end).
Proof.
  split; [exact keywords_tidy|].
  intros config. unfold ConfigManager._validate_and_load_params.
  repeat match goal with
         | |- context [ConfigManager._get_param ?c ?s ?k ?d ?v] =>
             destruct (ConfigManager._get_param c s k d v) eqn:?; simpl; [|exact I]
         end.
  split; apply keywords_tidy.
Qed.

(** * Properties of the engine *)

Section EngineProofs.

Import ConfigManager LogMonitor.

Ltac run := unfold bind, ret, gets, modify, emit, _print_status, raise, sys_exit; simpl.

(** ** Truncation detection *)

Lemma _detect_truncate_ok p m current :
  fs_stat (fs m) = Some current ->
  exists m',
    _detect_truncate p m = (Ret (shrunk p current (_last_file_size m)), m') /\
    _last_file_size m' = current /\ fs m' = fs m /\ future m' = future m.
Proof.
  intros H. unfold _detect_truncate, try_except, os_stat, shrunk. run. rewrite H.
  destruct ((current <? _last_file_size m) &&
            (truncate_sensitivity p <=? Z.abs (current - _last_file_size m)));
    eexists; split; reflexivity || (simpl; auto).
Qed.

Lemma _detect_truncate_failed p m :
  fs_stat (fs m) = None ->
  exists m',
    _detect_truncate p m = (Ret false, m') /\
    _last_file_size m' = _last_file_size m /\
    errors (_stats m') = errors (_stats m) + 1.
Proof.
  intros H. unfold _detect_truncate, try_except, os_stat. run. rewrite H.
  eexists; split; [reflexivity | simpl; auto].
Qed.

Lemma shrunk_spec p current last :
  shrunk p current last = true <->
  current < last /\ Z.abs (current - last) >= truncate_sensitivity p.
Proof. unfold shrunk. rewrite andb_true_iff, Z.ltb_lt, Z.leb_le. lia. Qed.

(** C2. When the size check succeeds with [current], [_detect_truncate]
    returns true exactly when [current] is below the last known size and the
    absolute difference reaches [truncate_sensitivity], and the last known
    size becomes [current] whatever it returns.  For the sizes 1000, 1000, 200
    with sensitivity 500, observed by a monitor whose baseline is at most
    1000, the answers are false, false, true. *)
Theorem _detect_truncate_spec :
  (forall p m current,
     fs_stat (fs m) = Some current ->
     exists (b : bool) m',
       _detect_truncate p m = (Ret b, m') /\
       (b = true <->
        current < _last_file_size m /\
        Z.abs (current - _last_file_size m) >= truncate_sensitivity p) /\
       _last_file_size m' = current) /\
  (forall p m,
     truncate_sensitivity p = 500 -> _last_file_size m <= 1000 ->
     observe p [1000; 1000; 200] m = [Ret false; Ret false; Ret true]).
Proof.
  split.
  - intros p m current H.
    destruct (_detect_truncate_ok p m current H) as [m' [E [Hlast _]]].
    exists (shrunk p current (_last_file_size m)), m'.
    split; [exact E|]. split; [apply shrunk_spec | exact Hlast].
  - intros p m Hs Hlast. unfold observe.
    destruct (_detect_truncate_ok p (set_world (resize 1000 (fs m)) (future m) m) 1000 eq_refl)
      as [m1 [E1 [L1 _]]].
    rewrite E1.
    destruct (_detect_truncate_ok p (set_world (resize 1000 (fs m1)) (future m1) m1) 1000 eq_refl)
      as [m2 [E2 [L2 _]]].
    rewrite E2.
    destruct (_detect_truncate_ok p (set_world (resize 200 (fs m2)) (future m2) m2) 200 eq_refl)
      as [m3 [E3 _]].
    rewrite E3. simpl. rewrite L1, L2. unfold shrunk. rewrite Hs.
    repeat f_equal.
    destruct (Z.ltb_spec 1000 (_last_file_size m)); [lia | reflexivity].
Qed.

(** ** Shutdown *)

Lemma reports_app a b : reports (a ++ b) = (reports a + reports b)%nat.
Proof. unfold reports. now rewrite List.filter_app, length_app. Qed.
Lemma closes_app a b : closes (a ++ b) = (closes a + closes b)%nat.
Proof. unfold closes. now rewrite List.filter_app, length_app. Qed.
Lemma sleeps_app a b : sleeps (a ++ b) = (sleeps a + sleeps b)%nat.
Proof. unfold sleeps. now rewrite List.filter_app, length_app. Qed.

Lemma countdown_spec i : forall m,
  exists evs m',
    countdown i m = (Ret tt, m') /\ out m' = out m ++ evs /\
    reports evs = 0%nat /\ closes evs = 0%nat /\
    _is_running m' = _is_running m /\ _file m' = _file m.
Proof.
  induction i as [|i IH]; intros m.
  - exists [], m. rewrite app_nil_r. repeat split; reflexivity.
  - cbn [countdown]. run.
    destruct (IH (advance (set_out (out m ++ [Countdown (Z.of_nat (S i))]) m)))
      as [evs [m' [E [Ho [Hr [Hc [Hrun Hf]]]]]]].
    exists (Countdown (Z.of_nat (S i)) :: evs), m'.
    split; [exact E|].
    assert (Hadv : forall x, out (advance x) = out x /\ _is_running (advance x) = _is_running x
                             /\ _file (advance x) = _file x).
    { intros x. unfold advance. destruct (future x); simpl; auto. }
    destruct (Hadv (set_out (out m ++ [Countdown (Z.of_nat (S i))]) m)) as [A1 [A2 A3]].
    rewrite Ho, A1, Hrun, A2, Hf, A3. simpl. rewrite <- app_assoc. simpl.
    repeat split; assumption.
Qed.

Lemma _close_file_spec m :
  exists evs m',
    _close_file m = (Ret tt, m') /\ out m' = out m ++ evs /\
    reports evs = 0%nat /\ (closes evs <= 1)%nat /\ sleeps evs = 0%nat /\
    emitted evs = [] /\
    _file m' = None /\ _is_running m' = _is_running m /\
    _last_file_size m' = _last_file_size m /\ fs m' = fs m /\ future m' = future m /\
    stop_request m' = stop_request m /\ bytes (_stats m') = bytes (_stats m).
Proof.
  unfold _close_file, try_except, file_close. run.
  destruct (_file m) as [h|] eqn:Hf; simpl.
  - destruct (closed h); simpl.
    + exists [], (set_file None m). simpl. rewrite app_nil_r.
      repeat split; auto.
    + destruct (fs_close_ok (fs m)); simpl.
      * exists [FileClose; Status MsgHandleClosed]. eexists. split; [reflexivity|].
        simpl. rewrite <- app_assoc. repeat split; auto.
      * exists [FileClose; Status MsgCloseFailed]. eexists. split; [reflexivity|].
        simpl. rewrite <- app_assoc. repeat split; auto.
  - exists [], (set_file None m). simpl. rewrite app_nil_r. repeat split; auto.
Qed.

Lemma stop_when_stopped p m : _is_running m = false -> stop p m = (Ret tt, m).
Proof. intros H. unfold stop. run. now rewrite H. Qed.

Lemma stop_when_running p m :
  _is_running m = true ->
  exists evs m',
    stop p m = (Abort (Exit 0), m') /\ out m' = out m ++ evs /\
    reports evs = (if show_stats p then 1 else 0)%nat /\ (closes evs <= 1)%nat /\
    _is_running m' = false /\ _file m' = None.
Proof.
  intros H. unfold stop. run. rewrite H. simpl.
  set (m1 := set_is_running false (set_out (out m ++ [Status MsgStopping]) m)).
  destruct (_close_file_spec m1) as [e1 [m2 [E2 [O2 [R2 [C2 [_ [_ [F2 [Run2 _]]]]]]]]]].
  rewrite E2. unfold m1 in Run2. simpl in Run2.
  assert (exists e3 m3, _print_stats p m2 = (Ret tt, m3) /\ out m3 = out m2 ++ e3 /\
            reports e3 = (if show_stats p then 1 else 0)%nat /\ closes e3 = 0%nat /\
            _is_running m3 = false /\ _file m3 = None)
    as [e3 [m3 [E3 [O3 [R3 [C3 [Run3 F3]]]]]]].
  { unfold _print_stats. destruct (show_stats p); run.
    - exists [StatsReport (_stats m2)]. eexists. split; [reflexivity|]. simpl.
      repeat split; auto.
    - exists [], m2. rewrite app_nil_r. repeat split; auto. }
  rewrite E3.
  destruct (0 <? auto_close_delay p).
  - run.
    destruct (countdown_spec (Z.to_nat (auto_close_delay p))
                (set_out (out m3 ++ [Status (MsgAutoClose (auto_close_delay p))]) m3))
      as [e4 [m4 [E4 [O4 [R4 [C4 [Run4 F4]]]]]]].
    rewrite E4.
    exists ([Status MsgStopping] ++ e1 ++ e3 ++ [Status (MsgAutoClose (auto_close_delay p))] ++ e4), m4.
    split; [reflexivity|]. simpl in O4, Run4, F4.
    split. { rewrite O4, O3, O2. unfold m1. simpl. now rewrite <- !app_assoc. }
    rewrite !reports_app, !closes_app, R2, R3, R4, C3, C4. simpl.
    repeat split; try lia; try congruence.
  - run. exists ([Status MsgStopping] ++ e1 ++ e3), m3.
    split; [reflexivity|].
    split. { rewrite O3, O2. unfold m1. simpl. now rewrite <- !app_assoc. }
    rewrite !reports_app, !closes_app, R2, R3, C3. simpl.
    repeat split; try lia; try congruence.
Qed.

(** C8, as the code has it.  A second [stop] on a stopped monitor returns at
    once and changes nothing.  Two calls in a row make as many statistics
    reports as one: one when the monitor was running and [show_stats] is set,
    none otherwise; and they close the handle at most once.  The first call
    on a running monitor ends in [sys.exit(0)]. *)
Theorem stop_twice (p : Params) (m : Machine) :
  let '(r1, m1) := stop p m in
  let '(r2, m2) := stop p m1 in
  r2 = Ret tt /\ m2 = m1 /\
  (r1 = if _is_running m then Abort (Exit 0) else Ret tt) /\
  exists evs,
    out m2 = out m ++ evs /\
    reports evs = (if _is_running m && show_stats p then 1 else 0)%nat /\
    (closes evs <= 1)%nat.
Proof.
  destruct (_is_running m) eqn:Hrun.
  - destruct (stop_when_running p m Hrun) as [evs [m1 [E [Ho [Hr [Hc [Hrun1 _]]]]]]].
    rewrite E, (stop_when_stopped p m1 Hrun1).
    repeat split; auto. exists evs. simpl. auto.
  - rewrite (stop_when_stopped p m Hrun), (stop_when_stopped p m Hrun).
    repeat split; auto. exists []. rewrite app_nil_r. simpl. auto.
Qed.

(** C8 as stated fails where [show_stats] is off: a running monitor stopped
    twice makes no statistics report at all. *)
Lemma stop_twice_without_report :
  let m := polling (plain_file (str "INFO up")) 7 7 in
  let '(r1, m1) := stop quiet_params m in
  let '(r2, m2) := stop quiet_params m1 in
  r1 = Abort (Exit 0) /\ r2 = Ret tt /\ reports (out m2) = 0%nat /\ closes (out m2) = 1%nat.
Proof. vm_compute. auto. Qed.

(** ** Startup failures and the exit code *)

Lemma start_on_startup_failure p fuel m :
  _is_running m = false -> _file m = None -> startup_failure p (fs m) = true ->
  exists m', start p fuel m = (Ret tt, m') /\ _is_running m' = false /\
             errors (_stats m') = errors (_stats m) + 1 /\
             reports (out m') = reports (out m).
Proof.
  destruct m as [f r l s [ex isf acc op rd cl st tx] fut req o]. simpl.
  intros -> -> H. unfold startup_failure in H. simpl in H.
  unfold start, try_finally, try_except, _validate_file, _open_file, _close_file, stop,
    os_open, os_stat.
  destruct ex; simpl in H.
  - destruct isf, acc, op, st; simpl in H; try discriminate;
      destruct fuel; cbn; (eexists; split; [reflexivity|]); simpl;
      rewrite ?reports_app; unfold reports; simpl; repeat split; lia.
  - apply negb_true_iff in H.
    destruct fuel; cbn; rewrite H; cbn; (eexists; split; [reflexivity|]); simpl;
      rewrite ?reports_app; unfold reports; simpl; repeat split; lia.
Qed.

(** C3 on the code.  On every startup failure (the file is missing and
    waiting is disabled, the path is not a regular file, it is not readable,
    [open] or the first [stat] fails), [start] catches the exception, its
    [finally: self.stop()] finds [_is_running] still false and returns, and
    [main] returns: the exit code of the process is 0. *)
Theorem startup_failure_exit_code
    (config : ConfigParser) (p : Params) (fuel : nat)
    (now : FileSys) (later : list FileSys) (signal : option nat) :
  _validate_and_load_params config = Some p ->
  startup_failure p now = true ->
  fst (run_main config fuel now later signal) = Some 0.
Proof.
  intros Hload Hfail. unfold run_main, main, try_except. rewrite Hload.
  destruct (start_on_startup_failure p fuel (new_monitor now later signal)
              eq_refl eq_refl Hfail) as [m' [E _]].
  rewrite E. reflexivity.
Qed.

(** The log file is missing and [Wait_For_File] is [False]: the process
    reports the exception and ends with exit code 0. *)
Lemma startup_failure_exit_code_witness :
  fst (run_main config_no_wait 5 no_file [] None) = Some 0.
Proof.
  apply (startup_failure_exit_code config_no_wait
           (match _validate_and_load_params config_no_wait with
            | Some p => p
            | None => default_params
            end)); reflexivity.
Defined.

Lemma missing_file_run :
  run_main config_no_wait 5 no_file [] None =
  (Some 0, [Header; Status (MsgMonitorError FileNotFoundError)]).
Proof. reflexivity. Qed.


(** ** Reopening with a full replay *)

Lemma emitted_app a b : emitted (a ++ b) = emitted a ++ emitted b.
Proof. unfold emitted. apply flat_map_app. Qed.

Lemma emitted_map_Emit chunks : emitted (List.map Emit chunks) = chunks.
Proof. induction chunks as [|c cs IH]; simpl; [reflexivity | now rewrite IH]. Qed.

Lemma sleeps_map_Emit chunks : sleeps (List.map Emit chunks) = 0%nat.
Proof. induction chunks as [|c cs IH]; [reflexivity | exact IH]. Qed.

Lemma skipn_length_firstn {A} n (l : list A) :
  skipn (List.length (firstn n l)) l = skipn n l.
Proof. revert l. induction n; destruct l; simpl; auto. Qed.

(** ** The chunks of the load loop *)

Lemma read_chunks_step rounds n s :
  read_chunks (S rounds) n s =
  match firstn n s with
  | [] => []
  | chunk => chunk :: read_chunks rounds n (skipn n s)
  end.
Proof. reflexivity. Qed.

Lemma firstn_empty {A} n (s : list A) : (0 < n)%nat -> firstn n s = [] -> s = [].
Proof. destruct n; [lia|]. destruct s; [reflexivity | discriminate]. Qed.

Lemma skipn_shorter {A} n (s : list A) :
  (0 < n)%nat -> s <> [] -> (List.length (skipn n s) < List.length s)%nat.
Proof.
  intros Hn Hs. rewrite length_skipn. destruct s; [congruence|]. simpl. lia.
Qed.

Lemma read_chunks_fuel n :
  (0 < n)%nat ->
  forall r r' s, (List.length s <= r)%nat -> (List.length s <= r')%nat ->
    read_chunks r n s = read_chunks r' n s.
Proof.
  intros Hn. induction r as [|r IH]; intros r' s Hr Hr'.
  - destruct s; [|simpl in Hr; lia]. destruct r'; [reflexivity|].
    rewrite read_chunks_step. now rewrite firstn_nil.
  - destruct r' as [|r'].
    + destruct s; [|simpl in Hr'; lia]. rewrite read_chunks_step. now rewrite firstn_nil.
    + rewrite !read_chunks_step. destruct (firstn n s) as [|c chunk] eqn:E; [reflexivity|].
      assert (s <> []) by (intros ->; now rewrite firstn_nil in E).
      pose proof (skipn_shorter n s Hn H). f_equal. apply IH; lia.
Qed.

Lemma read_chunks_concat n :
  (0 < n)%nat ->
  forall r s, (List.length s <= r)%nat -> concat (read_chunks r n s) = s.
Proof.
  intros Hn. induction r as [|r IH]; intros s Hr.
  - destruct s; [reflexivity | simpl in Hr; lia].
  - rewrite read_chunks_step. destruct (firstn n s) as [|c chunk] eqn:E.
    + symmetry. now apply (firstn_empty n).
    + assert (s <> []) by (intros ->; now rewrite firstn_nil in E).
      pose proof (skipn_shorter n s Hn H).
      cbn [concat]. rewrite IH by lia. rewrite <- E. apply firstn_skipn.
Qed.

Lemma read_chunks_sizes n : forall r s,
  Forall (fun c => c <> [] /\ (List.length c <= n)%nat) (read_chunks r n s).
Proof.
  induction r as [|r IH]; intros s; [constructor|].
  rewrite read_chunks_step. destruct (firstn n s) as [|c chunk] eqn:E; [constructor|].
  constructor; [|apply IH]. split; [discriminate|].
  rewrite <- E, length_firstn. lia.
Qed.

(** Chunk number [i] is the stretch of [n] characters that starts at
    [i * n]: only the last chunk can be shorter. *)
Lemma read_chunks_nth n :
  (0 < n)%nat ->
  forall r s i, (List.length s <= r)%nat ->
    nth i (read_chunks r n s) [] = firstn n (skipn (i * n) s).
Proof.
  intros Hn. induction r as [|r IH]; intros s i Hr.
  - destruct s; [|simpl in Hr; lia]. simpl. rewrite skipn_nil, firstn_nil.
    now destruct i.
  - rewrite read_chunks_step. destruct (firstn n s) as [|c chunk] eqn:E.
    + apply (firstn_empty n) in E as ->; [|exact Hn].
      rewrite skipn_nil, firstn_nil. now destruct i.
    + assert (s <> []) by (intros ->; now rewrite firstn_nil in E).
      pose proof (skipn_shorter n s Hn H).
      destruct i as [|i]; [now rewrite <- E|].
      cbn [nth]. rewrite IH by lia. rewrite skipn_skipn.
      replace (i * n + n)%nat with (S i * n)%nat by lia. reflexivity.
Qed.


(** The load loop on a readable file reads what is left of the file in
    chunks of [chunk_size] characters (the last one possibly shorter), prints
    the cleaned chunks that pass the filter, in order, and leaves the
    position behind the last character. *)
Lemma read_all_chunks p :
  0 < chunk_size p ->
  forall rounds m h total,
    _file m = Some h -> fs_read_ok (fs m) = true ->
    (List.length (skipn (pos h) (fs_text (fs m))) < rounds)%nat ->
    exists m',
      read_all p rounds total m =
        (Ret (total + len (skipn (pos h) (fs_text (fs m)))), m') /\
      out m' = out m ++ List.map Emit
                 (List.filter (processor_filter p)
                    (List.map (processor_clean p)
                       (chunks_of p (skipn (pos h) (fs_text (fs m)))))) /\
      _file m' = Some {| pos := pos h + List.length (skipn (pos h) (fs_text (fs m)));
                         closed := closed h |} /\
      _is_running m' = _is_running m /\ _last_file_size m' = _last_file_size m /\
      _stats m' = _stats m /\ fs m' = fs m /\ future m' = future m /\
      stop_request m' = stop_request m.
Proof.
  intros Hcs. assert (Hn : (0 < Z.to_nat (chunk_size p))%nat) by lia.
  unfold chunks_of.
  induction rounds as [|rounds IH]; intros m h total Hf Hr Hlen; [lia|].
  cbn [read_all]. unfold bind at 1. unfold file_read. rewrite Hf, Hr.
  destruct (Z.ltb_spec (chunk_size p) 0) as [?|_]; [lia|].
  set (rest := skipn (pos h) (fs_text (fs m))) in *.
  destruct (firstn (Z.to_nat (chunk_size p)) rest) as [|c chunk] eqn:Echunk.
  - assert (rest = []) as -> by now apply (firstn_empty (Z.to_nat (chunk_size p))).
    exists (set_file (Some {| pos := pos h + 0; closed := closed h |}) m).
    simpl. unfold ret, len. simpl. rewrite app_nil_r.
    repeat split; auto. f_equal. f_equal. lia.
  - set (ch := c :: chunk) in *.
    assert (Hne : rest <> []) by (intros E; rewrite E, firstn_nil in Echunk; discriminate).
    assert (Hskip : skipn (List.length ch) rest = skipn (Z.to_nat (chunk_size p)) rest).
    { rewrite <- Echunk. apply skipn_length_firstn. }
    assert (Hsplit : rest = ch ++ skipn (List.length ch) rest).
    { rewrite Hskip, <- Echunk. symmetry. apply firstn_skipn. }
    set (h1 := {| pos := pos h + List.length ch; closed := closed h |}).
    set (m1 := set_file (Some h1) m).
    set (m2 := if processor_filter p (processor_clean p ch)
               then set_out (out m1 ++ [Emit (processor_clean p ch)]) m1 else m1).
    assert (Hrest2 : skipn (pos h1) (fs_text (fs m2)) = skipn (List.length ch) rest).
    { unfold m2, m1, h1, rest. destruct (processor_filter p (processor_clean p ch)); simpl;
        now rewrite Nat.add_comm, skipn_skipn. }
    pose proof (skipn_shorter _ rest Hn Hne) as Hshort.
    destruct (IH m2 h1 (total + len ch)) as [m' [E [Ho [Hf' Hsame]]]].
    { unfold m2, m1. destruct (processor_filter p (processor_clean p ch)); reflexivity. }
    { unfold m2, m1. destruct (processor_filter p (processor_clean p ch)); exact Hr. }
    { rewrite Hrest2, Hskip. lia. }
    exists m'. rewrite Hrest2 in *.
    assert (Elen : len rest = len ch + len (skipn (List.length ch) rest)).
    { rewrite Hsplit at 1. unfold len. rewrite length_app. lia. }
    assert (Echunks : read_chunks (List.length rest) (Z.to_nat (chunk_size p)) rest
                      = ch :: read_chunks (List.length (skipn (List.length ch) rest))
                                (Z.to_nat (chunk_size p)) (skipn (List.length ch) rest)).
    { destruct (List.length rest) as [|r] eqn:El; [destruct rest; [congruence | discriminate]|].
      rewrite read_chunks_step, Echunk. fold ch. f_equal. rewrite Hskip.
      apply read_chunks_fuel; [exact Hn | lia | lia]. }
    split.
    { unfold bind, emit, modify, ret. fold m1.
      replace (total + len rest) with (total + len ch + len (skipn (List.length ch) rest)) by lia.
      rewrite <- E. unfold m2.
      destruct (processor_filter p (processor_clean p ch)); reflexivity. }
    split.
    { rewrite Ho, Echunks. unfold m2, m1. cbn [List.map List.filter].
      destruct (processor_filter p (processor_clean p ch)); simpl;
        [now rewrite <- app_assoc | reflexivity]. }
    split.
    { rewrite Hf'. unfold h1. cbn [pos closed]. f_equal. f_equal.
      assert (Hnat := f_equal (@List.length _) Hsplit). rewrite length_app in Hnat.
      fold rest. lia. }
    unfold m2, m1 in Hsame.
    destruct (processor_filter p (processor_clean p ch)); simpl in Hsame; exact Hsame.
Qed.

(** The load loop on a readable file: the chunks it reads are non-empty, at
    most [chunk_size] long, and put end to end they are what was left of the
    file; the cleaned chunks that pass the filter are printed in order; the
    position ends behind the last character. *)
Lemma read_all_spec p :
  0 < chunk_size p ->
  forall rounds m h total,
    _file m = Some h -> fs_read_ok (fs m) = true ->
    (List.length (skipn (pos h) (fs_text (fs m))) < rounds)%nat ->
    exists chunks m',
      read_all p rounds total m =
        (Ret (total + len (skipn (pos h) (fs_text (fs m)))), m') /\
      concat chunks = skipn (pos h) (fs_text (fs m)) /\
      Forall (fun c => c <> [] /\ len c <= chunk_size p) chunks /\
      out m' = out m ++ List.map Emit
                 (List.filter (processor_filter p) (List.map (processor_clean p) chunks)) /\
      _file m' = Some {| pos := pos h + List.length (skipn (pos h) (fs_text (fs m)));
                         closed := closed h |} /\
      _is_running m' = _is_running m /\ _last_file_size m' = _last_file_size m /\
      _stats m' = _stats m /\ fs m' = fs m /\ future m' = future m /\
      stop_request m' = stop_request m.
Proof.
  intros Hcs rounds m h total Hf Hr Hlen.
  destruct (read_all_chunks p Hcs rounds m h total Hf Hr Hlen) as (m' & E & Ho & Hrest).
  assert (Hn : (0 < Z.to_nat (chunk_size p))%nat) by lia.
  exists (chunks_of p (skipn (pos h) (fs_text (fs m)))), m'.
  split; [exact E|].
  split. { apply read_chunks_concat; [exact Hn | lia]. }
  split.
  { eapply List.Forall_impl; [|apply read_chunks_sizes].
    intros c [Hc Hl]. split; [exact Hc | unfold len; lia]. }
  split; [exact Ho | exact Hrest].
Qed.


Lemma read_all_no_sleep p rounds : forall total m,
  exists evs, out (snd (read_all p rounds total m)) = out m ++ evs /\ sleeps evs = 0%nat.
Proof.
  induction rounds as [|rounds IH]; intros total m.
  - exists []. simpl. now rewrite app_nil_r.
  - cbn [read_all]. unfold bind at 1. unfold file_read.
    destruct (_file m) as [h|]; [|exists []; simpl; now rewrite app_nil_r].
    destruct (fs_read_ok (fs m)); [|exists []; simpl; now rewrite app_nil_r].
    destruct (if chunk_size p <? 0 then skipn (pos h) (fs_text (fs m))
              else firstn (Z.to_nat (chunk_size p)) (skipn (pos h) (fs_text (fs m))))
      as [|c chunk].
    + exists []. simpl. now rewrite app_nil_r.
    + unfold bind, emit, modify, ret.
      destruct (processor_filter p (processor_clean p (c :: chunk))).
      * match goal with
        | |- context [read_all p rounds ?t ?mm] => destruct (IH t mm) as [evs [Ho Hs]]
        end.
        exists (Emit (processor_clean p (c :: chunk)) :: evs).
        rewrite Ho. simpl. rewrite <- app_assoc. split; [reflexivity | exact Hs].
      * match goal with
        | |- context [read_all p rounds ?t ?mm] => destruct (IH t mm) as [evs [Ho Hs]]
        end.
        exists evs. rewrite Ho. split; [reflexivity | exact Hs].
Qed.

#[local] Arguments read_all : simpl never.

(** [_open_file(read_full=True)] on a file that opens, reads and reports a
    size: what it prints and where it leaves the handle. *)
Lemma _open_file_replays p m size :
  0 < chunk_size p ->
  fs_open_ok (fs m) = true -> fs_read_ok (fs m) = true -> fs_stat (fs m) = Some size ->
  exists closing m',
    _open_file p true m = (Ret tt, m') /\
    out m' = out m ++ closing
               ++ [FileOpen; Status (MsgOpened size); Status MsgLoadingFull]
               ++ List.map Emit (replayed p (fs_text (fs m)))
               ++ [Status (MsgLoaded (len (fs_text (fs m))))] /\
    (closes closing <= 1)%nat /\ sleeps closing = 0%nat /\ emitted closing = [] /\
    _file m' = Some {| pos := List.length (fs_text (fs m)); closed := false |} /\
    _last_file_size m' = size /\
    bytes (_stats m') = bytes (_stats m) + len (fs_text (fs m)) /\
    _is_running m' = _is_running m /\ fs m' = fs m /\ future m' = future m /\
    stop_request m' = stop_request m.
Proof.
  intros Hcs Hopen Hread Hstat.
  destruct (_close_file_spec m)
    as [closing [m0 [E0 [O0 [_ [C0 [S0 [Em0 [F0 [Run0 [L0 [Fs0 [Fut0 [Req0 B0]]]]]]]]]]]]]].
  unfold _open_file. unfold bind at 1. rewrite E0.
  unfold try_except, os_open, os_stat. run. rewrite Fs0, Hopen. simpl. rewrite Fs0, Hstat. simpl.
  match goal with
  | |- context [read_all p ?r ?t ?mm] =>
      destruct (read_all_chunks p Hcs r mm {| pos := 0; closed := false |} t)
        as [m4 [E4 [O4 [F4 [Run4 [L4 [St4 [Fs4 [Fut4 Req4]]]]]]]]];
        [reflexivity | simpl; now rewrite Fs0 | simpl; rewrite Fs0, skipn_O; lia |]
  end.
  simpl in *. rewrite Fs0 in *. rewrite skipn_O in *. simpl in *. rewrite E4. simpl.
  exists closing. eexists. split; [reflexivity|]. simpl.
  split. { rewrite O4, O0. unfold replayed. rewrite <- !app_assoc. reflexivity. }
  split; [exact C0|]. split; [exact S0|]. split; [exact Em0|].
  split; [exact F4|].
  rewrite L4, St4, Run4, Fs4, Fut4, Req4, Run0, Fut0, Req0, B0.
  repeat split; try reflexivity.
Qed.

Lemma _open_file_replay p m size :
  0 < chunk_size p ->
  fs_open_ok (fs m) = true -> fs_read_ok (fs m) = true -> fs_stat (fs m) = Some size ->
  exists chunks closing m',
    _open_file p true m = (Ret tt, m') /\
    concat chunks = fs_text (fs m) /\
    Forall (fun c => c <> [] /\ len c <= chunk_size p) chunks /\
    out m' = out m ++ closing
               ++ [FileOpen; Status (MsgOpened size); Status MsgLoadingFull]
               ++ List.map Emit
                    (List.filter (processor_filter p) (List.map (processor_clean p) chunks))
               ++ [Status (MsgLoaded (len (fs_text (fs m))))] /\
    (closes closing <= 1)%nat /\ sleeps closing = 0%nat /\ emitted closing = [] /\
    _file m' = Some {| pos := List.length (fs_text (fs m)); closed := false |} /\
    _last_file_size m' = size /\
    bytes (_stats m') = bytes (_stats m) + len (fs_text (fs m)) /\
    _is_running m' = _is_running m /\ fs m' = fs m /\ future m' = future m /\
    stop_request m' = stop_request m.
Proof.
  intros Hcs Hopen Hread Hstat.
  destruct (_open_file_replays p m size Hcs Hopen Hread Hstat)
    as (closing & m' & E & Ho & Hrest).
  assert (Hn : (0 < Z.to_nat (chunk_size p))%nat) by lia.
  exists (chunks_of p (fs_text (fs m))), closing, m'.
  split; [exact E|].
  split. { apply read_chunks_concat; [exact Hn | lia]. }
  split.
  { eapply List.Forall_impl; [|apply read_chunks_sizes].
    intros c [Hc Hl]. split; [exact Hc | unfold len; lia]. }
  split; [exact Ho | exact Hrest].
Qed.

(** ** The poll cycle and its sleep *)

Ltac split_cases :=
  repeat match goal with
         | |- context [if ?b then _ else _] => destruct b eqn:?
         | |- context [match ?x with _ => _ end] => destruct x eqn:?
         end.

Lemma advance_out x : out (advance x) = out x.
Proof. unfold advance. destruct (future x); reflexivity. Qed.

Ltac close_cycle req :=
  (destruct req as [[|?]|]; [discriminate| |]);
  unfold advance; simpl;
  match goal with
  | |- context [match ?fut with [] => _ | _ :: _ => _ end] => destruct fut
  end; simpl;
  (eexists; eexists; split; [reflexivity|]);
  simpl; rewrite <- ?app_assoc; simpl;
  (split; [reflexivity | split; reflexivity]).

Ltac read_then_close p f h tx req Hread :=
  destruct f as [h|]; simpl;
  [ rewrite Hread; simpl;
    destruct (if chunk_size p <? 0 then skipn (pos h) tx
              else firstn (Z.to_nat (chunk_size p)) (skipn (pos h) tx)) as [|? ?];
    simpl;
    [ close_cycle req
    | match goal with
      | |- context [processor_filter p ?c] => destruct (processor_filter p c)
      end; simpl; close_cycle req ]
  | close_cycle req ].

Lemma poll_cycle_no_replay p m :
  replays p m = false -> can_read m = true -> stop_due m = false ->
  exists m' evs,
    poll_cycle p m = (Ret tt, m') /\
    out m' = out m ++ evs /\
    last evs = Some (Sleep (interval p)) /\ sleeps evs = 1%nat.
Proof.
  destruct m as [f r l s [ex isf acc op rd cl st tx] fut req o].
  unfold replays, can_read, stop_due, shrunk. simpl. intros Hrep Hread Hstop.
  unfold poll_cycle, _detect_truncate, try_except, os_stat, poll_sleep, file_read. run.
  destruct st as [current|]; simpl.
  - destruct ((current <? l) && (truncate_sensitivity p <=? Z.abs (current - l))) eqn:Hs;
      simpl in Hrep; rewrite ?Hrep; simpl; read_then_close p f h tx req Hread.
  - read_then_close p f h tx req Hread.
Qed.


Lemma _open_file_no_sleep p read_full m :
  exists evs, out (snd (_open_file p read_full m)) = out m ++ evs /\ sleeps evs = 0%nat.
Proof.
  destruct (_close_file_spec m) as (closing & m0 & E0 & O0 & _ & _ & S0 & _).
  unfold _open_file. unfold bind at 1. rewrite E0.
  unfold try_except, os_open, os_stat, file_seek_end. run.
  destruct (fs_open_ok (fs m0)); simpl.
  - destruct (fs_stat (fs m0)) as [size|]; simpl.
    + destruct read_full; simpl.
      * match goal with
        | |- context [read_all p ?r ?t ?mm] =>
            destruct (read_all_no_sleep p r t mm) as [evs [Ho Hs]];
            destruct (read_all p r t mm) as [[total|[e|code|]] m4]
        end; simpl in *; rewrite Ho, O0; eexists; rewrite <- !app_assoc;
          (split; [reflexivity|]); rewrite !sleeps_app, S0, Hs; reflexivity.
      * rewrite O0. eexists. rewrite <- !app_assoc. split; [reflexivity|].
        rewrite !sleeps_app, S0. reflexivity.
    + rewrite O0. eexists. rewrite <- !app_assoc. split; [reflexivity|].
      rewrite !sleeps_app, S0. reflexivity.
  - rewrite O0. eexists. rewrite <- !app_assoc. split; [reflexivity|].
    rewrite !sleeps_app, S0. reflexivity.
Qed.

Lemma poll_cycle_replay p m :
  replays p m = true ->
  exists evs, out (snd (poll_cycle p m)) = out m ++ evs /\ sleeps evs = 0%nat.
Proof.
  unfold replays. destruct (fs_stat (fs m)) as [current|] eqn:Hstat; [|discriminate].
  intros H. apply andb_true_iff in H as [Hs Hfull].
  destruct (_detect_truncate_ok p m current Hstat) as (m1 & E1 & _).
  unfold poll_cycle. unfold bind at 1. rewrite E1. cbv beta iota. rewrite Hs, Hfull. simpl.
  destruct (_open_file_no_sleep p true m1) as [evs [Ho Hsl]].
  assert (exists e1, out m1 = out m ++ e1 /\ sleeps e1 = 0%nat) as [e1 [O1 S1]].
  { clear - E1 Hstat Hs. rewrite Hs in E1.
    unfold _detect_truncate, try_except, os_stat in E1. revert E1. run.
    rewrite Hstat. unfold shrunk in Hs. rewrite Hs. simpl. intros [= <-]. simpl.
    eexists. split; reflexivity. }
  exists (e1 ++ evs). rewrite Ho, O1, <- app_assoc. split; [reflexivity|].
  now rewrite sleeps_app, S1, Hsl.
Qed.

(** A poll cycle that detects a truncation with [read_full_on_truncate] on
    is the size check followed by the reopen with a full replay. *)
Lemma poll_cycle_reopens p m :
  replays p m = true ->
  exists current m1,
    fs_stat (fs m) = Some current /\
    _detect_truncate p m = (Ret true, m1) /\
    poll_cycle p m = _open_file p true m1 /\
    out m1 = out m ++ [Status (MsgTruncated (truncates (_stats m) + 1))] /\
    truncates (_stats m1) = truncates (_stats m) + 1 /\
    bytes (_stats m1) = bytes (_stats m) /\
    _last_file_size m1 = current /\ _is_running m1 = _is_running m /\
    fs m1 = fs m /\ future m1 = future m /\ stop_request m1 = stop_request m.
Proof.
  unfold replays. destruct (fs_stat (fs m)) as [current|] eqn:Hstat; [|discriminate].
  intros H. apply andb_true_iff in H as [Hs Hfull].
  assert (E1 : _detect_truncate p m =
               (Ret true,
                set_last_file_size current
                  (set_out (out m ++ [Status (MsgTruncated (truncates (_stats m) + 1))])
                     (set_stats (add_truncates (_stats m)) m)))).
  { unfold _detect_truncate, try_except, os_stat. run. rewrite Hstat.
    unfold shrunk in Hs. rewrite Hs. reflexivity. }
  exists current. eexists. split; [reflexivity|]. split; [exact E1|].
  split. { unfold poll_cycle. unfold bind at 1. rewrite E1. cbv beta iota. now rewrite Hfull. }
  simpl. repeat split; reflexivity.
Qed.

(** The cycle of a detected truncation with [read_full_on_truncate] on, for a
    file that opens and reads: the truncation message, the close of the old
    handle, the reopen, the replay of the whole content, and the return to the
    head of the loop. *)
Lemma poll_cycle_replays p m :
  0 < chunk_size p -> replays p m = true ->
  fs_open_ok (fs m) = true -> fs_read_ok (fs m) = true ->
  exists current closing m',
    fs_stat (fs m) = Some current /\
    poll_cycle p m = (Ret tt, m') /\
    out m' = out m ++ [Status (MsgTruncated (truncates (_stats m) + 1))] ++ closing
               ++ [FileOpen; Status (MsgOpened current); Status MsgLoadingFull]
               ++ List.map Emit (replayed p (fs_text (fs m)))
               ++ [Status (MsgLoaded (len (fs_text (fs m))))] /\
    (closes closing <= 1)%nat /\ sleeps closing = 0%nat /\ emitted closing = [] /\
    _file m' = Some {| pos := List.length (fs_text (fs m)); closed := false |} /\
    _last_file_size m' = current /\
    bytes (_stats m') = bytes (_stats m) + len (fs_text (fs m)) /\
    _is_running m' = _is_running m /\ fs m' = fs m /\ future m' = future m /\
    stop_request m' = stop_request m.
Proof.
  intros Hcs Hrep Hopen Hread.
  destruct (poll_cycle_reopens p m Hrep)
    as (current & m1 & Hstat & _ & E & O1 & _ & B1 & _ & Run1 & Fs1 & Fut1 & Req1).
  destruct (_open_file_replays p m1 current Hcs) as
    (closing & m' & E' & O' & C & S & Em & F & L & B & Run & Fs & Fut & Req);
    try (rewrite Fs1; assumption).
  exists current, closing, m'. rewrite E, Fs1 in *.
  split; [exact Hstat|]. split; [exact E'|].
  split. { rewrite O', O1, <- !app_assoc. reflexivity. }
  rewrite B, B1, Run, Run1, Fs, Fut, Fut1, Req, Req1. repeat split; assumption.
Qed.

(** C6, as the code has it.  A poll cycle that detects a truncation with
    [read_full_on_truncate] on, on a file that opens and reads, reopens the
    file and reads its whole content once, in order, in chunks of
    [chunk_size] characters (chunk number [i] is the stretch that starts at
    character [i * chunk_size]; only the last one can be shorter, none is
    empty); it prints the cleaned chunks that pass the keyword filter, in
    order, and nothing else of the content; the read position ends at the end
    of the file, so the next read returns only what has been appended
    since. *)
Theorem full_replay (p : Params) (m : Machine) :
  0 < chunk_size p -> replays p m = true ->
  fs_open_ok (fs m) = true -> fs_read_ok (fs m) = true ->
  let content := fs_text (fs m) in
  let n := Z.to_nat (chunk_size p) in
  exists evs m',
    poll_cycle p m = (Ret tt, m') /\
    out m' = out m ++ evs /\
    In FileOpen evs /\
    emitted evs = List.filter (processor_filter p)
                    (List.map (processor_clean p) (chunks_of p content)) /\
    concat (chunks_of p content) = content /\
    Forall (fun c => c <> []) (chunks_of p content) /\
    (forall i, nth i (chunks_of p content) [] = firstn n (skipn (i * n) content)) /\
    _file m' = Some {| pos := List.length content; closed := false |} /\
    forall appended,
      fst (file_read (chunk_size p) (set_world (grow appended (fs m')) (future m') m')) =
      Ret (firstn n appended).
Proof.
  intros Hcs Hrep Hopen Hread content n.
  assert (Hn : (0 < n)%nat) by (unfold n; lia).
  destruct (poll_cycle_replays p m Hcs Hrep Hopen Hread)
    as (current & closing & m' & _ & E & Ho & _ & _ & Hem & Hf & _ & _ & _ & Hfs & _).
  eexists. exists m'.
  split; [exact E|]. split; [exact Ho|].
  split. { apply in_or_app. right. apply in_or_app. right. now left. }
  split.
  { rewrite !emitted_app, Hem, emitted_map_Emit. simpl. now rewrite app_nil_r. }
  split. { apply read_chunks_concat; [exact Hn | lia]. }
  split.
  { eapply List.Forall_impl; [|apply read_chunks_sizes]. now intros c [Hc _]. }
  split. { intros i. apply read_chunks_nth; [exact Hn | lia]. }
  split; [exact Hf|].
  intros appended. unfold file_read. simpl. rewrite Hf, Hfs, Hread. simpl.
  destruct (Z.ltb_spec (chunk_size p) 0) as [?|_]; [lia|].
  rewrite skipn_app, skipn_all, Nat.sub_diag. reflexivity.
Qed.

(** A monitor polling with the default parameters finds a file of 4000
    characters replaced by one of two lines. *)
Lemma full_replay_witness :
  let m := polling (plain_file (str "INFO up" ++ [10%N] ++ str "WARN disk")) 4000 4000 in
  let content := fs_text (fs m) in
  let n := Z.to_nat (chunk_size default_params) in
  exists evs m',
    poll_cycle default_params m = (Ret tt, m') /\
    out m' = out m ++ evs /\
    In FileOpen evs /\
    emitted evs = List.filter (processor_filter default_params)
                    (List.map (processor_clean default_params)
                       (chunks_of default_params content)) /\
    concat (chunks_of default_params content) = content /\
    Forall (fun c => c <> []) (chunks_of default_params content) /\
    (forall i, nth i (chunks_of default_params content) []
               = firstn n (skipn (i * n) content)) /\
    _file m' = Some {| pos := List.length content; closed := false |} /\
    forall appended,
      fst (file_read (chunk_size default_params)
             (set_world (grow appended (fs m')) (future m') m')) =
      Ret (firstn n appended).
Proof.
  intros m. apply (full_replay default_params m); vm_compute; reflexivity.
Defined.

(** C6 as stated fails: the replay prints a chunk only when it passes the
    keyword filter.  With the default keywords a file whose content mentions
    [DEBUG] is read to its end and nothing of it is printed. *)
Lemma full_replay_drops_chunk :
  let m := polling (plain_file (str "DEBUG boot")) 4000 4000 in
  let '(r, m') := _open_file default_params true m in
  r = Ret tt /\ fs_text (fs m') = str "DEBUG boot" /\ emitted (out m') = [] /\
  _file m' = Some {| pos := 10; closed := false |}.
Proof. vm_compute. auto. Qed.

(** C4, as the code has it.  A poll cycle that does not reopen the file with
    a full replay, whose read does not raise and during which no termination
    signal arrives, returns to the head of the loop after a sleep of
    [interval] seconds: the sleep is its last event and its only sleep,
    whether data was read or not, and also when a truncation was detected
    with [read_full_on_truncate] off.  A cycle that detects a truncation with
    [read_full_on_truncate] on is the size check followed by the reopen with a
    full replay and by nothing else: it never sleeps; and when the file opens
    and reads, it reports the truncation, reopens the file, replays it and
    returns, so that the loop goes on with its next cycle at once
    ([continue]). *)
Theorem poll_cycle_sleep :
  (forall p m,
     replays p m = false -> can_read m = true -> stop_due m = false ->
     exists m' evs,
       poll_cycle p m = (Ret tt, m') /\
       out m' = out m ++ evs /\
       last evs = Some (Sleep (interval p)) /\ sleeps evs = 1%nat) /\
  (forall p m,
     replays p m = true ->
     (exists m1,
        _detect_truncate p m = (Ret true, m1) /\
        poll_cycle p m = _open_file p true m1) /\
     (exists evs, out (snd (poll_cycle p m)) = out m ++ evs /\ sleeps evs = 0%nat) /\
     (0 < chunk_size p -> fs_open_ok (fs m) = true -> fs_read_ok (fs m) = true ->
      exists evs m',
        poll_cycle p m = (Ret tt, m') /\
        out m' = out m ++ evs /\ sleeps evs = 0%nat /\
        In (Status (MsgTruncated (truncates (_stats m) + 1))) evs /\
        In FileOpen evs /\ In (Status MsgLoadingFull) evs /\
        emitted evs = replayed p (fs_text (fs m)) /\
        _file m' = Some {| pos := List.length (fs_text (fs m)); closed := false |} /\
        _is_running m' = _is_running m /\
        forall fuel, _is_running m = true ->
          poll_loop p (S fuel) m = poll_loop p fuel m')).
Proof.
  split; [exact poll_cycle_no_replay|].
  intros p m Hrep. split; [|split].
  - destruct (poll_cycle_reopens p m Hrep) as (current & m1 & _ & E1 & E & _).
    exists m1. split; assumption.
  - exact (poll_cycle_replay p m Hrep).
  - intros Hcs Hopen Hread.
    destruct (poll_cycle_replays p m Hcs Hrep Hopen Hread)
      as (current & closing & m' & _ & E & Ho & _ & Hsl & Hem & Hf & _ & _ & Hrun & _).
    eexists. exists m'. split; [exact E|]. split; [exact Ho|].
    split. { rewrite !sleeps_app, Hsl, sleeps_map_Emit. reflexivity. }
    split. { now left. }
    split. { apply in_or_app. right. apply in_or_app. right. now left. }
    split. { apply in_or_app. right. apply in_or_app. right. right. right. now left. }
    split. { rewrite !emitted_app, Hem, emitted_map_Emit. simpl. now rewrite app_nil_r. }
    split; [exact Hf|]. split; [exact Hrun|].
    intros fuel Hr. cbn [poll_loop]. unfold bind at 1. unfold gets. rewrite Hr. cbn [negb].
    unfold bind. now rewrite E.
Qed.

(** C4 as stated fails: the file shrank from 4000 to 7 bytes; the cycle
    reports the truncation, reopens and replays the file, and returns to the
    head of the loop without having slept. *)
Lemma replay_cycle_does_not_sleep :
  let m := polling (plain_file (str "INFO up")) 4000 4000 in
  let '(r, m') := poll_cycle default_params m in
  r = Ret tt /\ _is_running m' = true /\
  out m' = [Status (MsgTruncated 1); FileClose; Status MsgHandleClosed; FileOpen;
            Status (MsgOpened 7); Status MsgLoadingFull; Emit (str "INFO up");
            Status (MsgLoaded 7)] /\
  sleeps (out m') = 0%nat.
Proof. vm_compute. auto. Qed.


(** ** The exit code of a monitor that was constructed

    Every operation of the engine either returns, raises, runs out of fuel or
    exits with code 0; [start] catches what is raised.  So once [LogMonitor()]
    has returned, the process never ends with a non-zero exit code. *)

Create HintDb engine.

Lemma ends_in_weaken {A} (c : M A) : ends_in zero_exit_no_raise c -> ends_in zero_exit c.
Proof.
  intros H m. specialize (H m). destruct (fst (c m)) as [a|[e|code|]]; simpl in *; auto.
Qed.

Lemma ends_in_ret {A} ok (a : A) : ends_in ok (ret a).
Proof. intros m. exact I. Qed.
Lemma ends_in_gets {A} ok (f : Machine -> A) : ends_in ok (gets f).
Proof. intros m. exact I. Qed.
Lemma ends_in_modify ok f : ends_in ok (modify f).
Proof. intros m. exact I. Qed.
Lemma ends_in_emit ok e : ends_in ok (emit e).
Proof. intros m. exact I. Qed.
Lemma ends_in_status ok msg : ends_in ok (_print_status msg).
Proof. intros m. exact I. Qed.
Lemma ends_in_raise {A} e : ends_in zero_exit (@raise A e).
Proof. intros m. exact I. Qed.
Lemma ends_in_out_of_fuel {A} : ends_in zero_exit_no_raise (@out_of_fuel A).
Proof. intros m. exact I. Qed.
Lemma ends_in_exit_0 {A} : ends_in zero_exit_no_raise (@sys_exit A 0).
Proof. intros m. reflexivity. Qed.

Lemma ends_in_bind {A B} ok (c : M A) (k : A -> M B) :
  ends_in ok c -> (forall a, ends_in ok (k a)) -> ends_in ok (bind c k).
Proof.
  intros Hc Hk m. unfold bind. specialize (Hc m).
  destruct (c m) as [[a|x] m']; simpl in *; [apply Hk | exact Hc].
Qed.

Lemma ends_in_try_except {A} (body : M A) handler :
  ends_in zero_exit body -> (forall e, ends_in zero_exit_no_raise (handler e)) ->
  ends_in zero_exit_no_raise (try_except body handler).
Proof.
  intros Hb Hh m. unfold try_except. specialize (Hb m).
  destruct (body m) as [[a|[e|code|]] m']; simpl in *; auto. apply Hh.
Qed.

Lemma ends_in_try_rethrow {A} (body : M A) handler :
  ends_in zero_exit body -> (forall e, ends_in zero_exit (handler e)) ->
  ends_in zero_exit (try_except body handler).
Proof.
  intros Hb Hh m. unfold try_except. specialize (Hb m).
  destruct (body m) as [[a|[e|code|]] m']; simpl in *; auto. apply Hh.
Qed.

Lemma ends_in_try_finally {A} (body : M A) fin :
  ends_in zero_exit_no_raise body -> ends_in zero_exit_no_raise fin ->
  ends_in zero_exit_no_raise (try_finally body fin).
Proof.
  intros Hb Hf m. unfold try_finally. specialize (Hb m).
  destruct (body m) as [[a|[e|code|]] m']; simpl in *; auto;
    specialize (Hf m'); destruct (fin m') as [[u|x] m'']; simpl in *; auto.
Qed.

Lemma ends_in_os_open : ends_in zero_exit os_open.
Proof. intros m. unfold os_open. simpl. destruct (fs_open_ok (fs m)); exact I. Qed.
Lemma ends_in_os_stat : ends_in zero_exit os_stat.
Proof. intros m. unfold os_stat. destruct (fs_stat (fs m)); exact I. Qed.
Lemma ends_in_file_read n : ends_in zero_exit (file_read n).
Proof.
  intros m. unfold file_read. destruct (_file m); [|exact I].
  destruct (fs_read_ok (fs m)); exact I.
Qed.
Lemma ends_in_file_seek_end : ends_in zero_exit file_seek_end.
Proof. intros m. unfold file_seek_end. destruct (_file m); exact I. Qed.
Lemma ends_in_file_close : ends_in zero_exit file_close.
Proof. intros m. unfold file_close. simpl. destruct (fs_close_ok (fs m)); exact I. Qed.

#[local] Hint Resolve ends_in_ret ends_in_gets ends_in_modify ends_in_emit ends_in_status
  ends_in_raise ends_in_out_of_fuel ends_in_exit_0 ends_in_os_open ends_in_os_stat
  ends_in_file_read ends_in_file_seek_end ends_in_file_close ends_in_weaken : engine.

Ltac step_ends :=
  repeat first
    [ solve [auto with engine]
    | apply ends_in_bind; [|intros ?]
    | apply ends_in_try_except; [|intros ?]
    | apply ends_in_try_finally
    | match goal with
      | |- ends_in _ (if ?b then _ else _) => destruct b
      | |- ends_in _ (match ?x with _ => _ end) => destruct x
      end ].

Lemma ends_in_close_file : ends_in zero_exit_no_raise _close_file.
Proof. unfold _close_file. step_ends. Qed.

Lemma ends_in_countdown i : ends_in zero_exit_no_raise (countdown i).
Proof. induction i as [|i IH]; cbn [countdown]; step_ends. Qed.

#[local] Hint Resolve ends_in_close_file ends_in_countdown : engine.

Lemma ends_in_stop p : ends_in zero_exit_no_raise (stop p).
Proof. unfold stop, _print_stats. step_ends. Qed.

#[local] Hint Resolve ends_in_stop : engine.

Lemma ends_in_wait p fuel : ends_in zero_exit (wait_for_the_file p fuel).
Proof. induction fuel as [|fuel IH]; cbn [wait_for_the_file]; step_ends. Qed.

Lemma ends_in_read_all p rounds : forall total, ends_in zero_exit (read_all p rounds total).
Proof.
  induction rounds as [|rounds IH]; intros total; unfold read_all; fold read_all; step_ends.
Qed.

#[local] Hint Resolve ends_in_wait ends_in_read_all : engine.

Lemma ends_in_open_file p read_full : ends_in zero_exit (_open_file p read_full).
Proof.
  unfold _open_file. apply ends_in_bind; [auto with engine | intros _].
  apply ends_in_try_rethrow; [|auto with engine].
  step_ends.
Qed.

Lemma ends_in_detect p : ends_in zero_exit_no_raise (_detect_truncate p).
Proof. unfold _detect_truncate. step_ends. Qed.

#[local] Hint Resolve ends_in_open_file ends_in_detect : engine.

Lemma ends_in_poll_cycle p : ends_in zero_exit (poll_cycle p).
Proof. unfold poll_cycle, poll_sleep. step_ends. Qed.

#[local] Hint Resolve ends_in_poll_cycle : engine.

Lemma ends_in_poll_loop p fuel : ends_in zero_exit (poll_loop p fuel).
Proof. induction fuel as [|fuel IH]; cbn [poll_loop]; step_ends. Qed.

#[local] Hint Resolve ends_in_poll_loop : engine.

Lemma ends_in_start p fuel : ends_in zero_exit_no_raise (start p fuel).
Proof. unfold start, _validate_file. step_ends. Qed.

(** Whatever the file does and whenever the signal comes, a process whose
    monitor was constructed is either still running or ended with code 0. *)
Lemma exit_code_after_construction config p fuel now later signal :
  _validate_and_load_params config = Some p ->
  fst (run_main config fuel now later signal) = None \/
  fst (run_main config fuel now later signal) = Some 0.
Proof.
  intros Hload. unfold run_main, main, try_except. rewrite Hload.
  pose proof (ends_in_start p fuel (new_monitor now later signal)) as H.
  destruct (start p fuel (new_monitor now later signal)) as [[u|[e|code|]] m'];
    simpl in *; auto; [contradiction | right; now subst ].
Qed.

(** A graceful stop: the signal arrives during the second poll sleep; the
    handle is closed, the statistics are reported, the countdown runs, and
    the process exits with code 0. *)
Lemma graceful_stop_run :
  run_main config_no_wait 9 (plain_file (str "old")) [plain_file (str "old INFO new")] (Some 1%nat)
  = (Some 0,
     [Header; Status MsgValidated; FileOpen; Status (MsgOpened 3); Status MsgReady;
      Sleep f1_0; Emit (str " INFO new"); Sleep f1_0;
      Status MsgStopping; FileClose; Status MsgHandleClosed;
      StatsReport {| logs := 1; bytes := 9; truncates := 0; errors := 0 |};
      Status (MsgAutoClose 3); Countdown 3; Countdown 2; Countdown 1]).
Proof. vm_compute. reflexivity. Qed.

End EngineProofs.

(** * Further properties of the content processor *)

Section ProcessorExtras.

Lemma substring_extend kw a l r : substring kw a -> substring kw (l ++ a ++ r).
Proof.
  intros [l' [r' ->]]. exists (l ++ l'), (r' ++ r). now rewrite <- !app_assoc.
Qed.

Lemma exclude_hit_extend exc a l r :
  LogProcessor.exclude_hit exc a = true -> LogProcessor.exclude_hit exc (l ++ a ++ r) = true.
Proof.
  rewrite !exclude_hit_spec. intros [kw [Hin Hk]]. exists kw.
  split; [assumption | now apply substring_extend].
Qed.

(** X16. Filtering judges a chunk as a whole.  A chunk that contains a part
    rejected for an exclude keyword is rejected; and when the chunk holds no
    exclude keyword, a part that passes the filter makes the chunk pass. *)
Theorem filter_whole_chunk (include_keywords exclude_keywords : list text) (l a r : text) :
  (LogProcessor.exclude_hit exclude_keywords a = true ->
   LogProcessor.filter include_keywords exclude_keywords (l ++ a ++ r) = false) /\
  (LogProcessor.exclude_hit exclude_keywords (l ++ a ++ r) = false ->
   LogProcessor.filter include_keywords exclude_keywords a = true ->
   LogProcessor.filter include_keywords exclude_keywords (l ++ a ++ r) = true).
Proof.
  unfold LogProcessor.filter. split.
  - intros H. now rewrite (exclude_hit_extend _ _ l r H).
  - intros Hwhole. rewrite Hwhole.
    destruct (LogProcessor.exclude_hit exclude_keywords a); [discriminate|].
    destruct include_keywords as [|k ks]; [reflexivity|].
    rewrite !existsb_contains_spec. intros [kw [Hin Hk]].
    exists kw. split; [assumption | now apply substring_extend].
Qed.

(** X14. [clean] changes nothing in a text that does not contain ["Ex"]
    and, when ANSI filtering is on, contains no escape character. *)
Theorem clean_without_tokens (filter_ansi : bool) (content : text) :
  contains (str "Ex") content = false ->
  filter_ansi && existsb (N.eqb LogProcessor.ESC) content = false ->
  LogProcessor.clean filter_ansi content = content.
Proof.
  intros HEx HESC. unfold LogProcessor.clean.
  assert (Hfix : re_search LogProcessor.char_fix_pattern content = false).
  { destruct (re_search LogProcessor.char_fix_pattern content) eqn:E; [|reflexivity].
    apply re_search_inv in E as [l [t [-> Ht]]]. apply char_fix_needs_Ex in Ht.
    assert (contains (str "Ex") (l ++ t) = true); [|congruence].
    apply contains_spec. destruct Ht as [l' [r' ->]]. exists (l ++ l'), r'.
    now rewrite <- app_assoc. }
  rewrite (re_sub_no_match _ _ Hfix).
  destruct filter_ansi; [|reflexivity]. simpl in HESC.
  apply re_sub_no_match.
  destruct (re_search LogProcessor.ansi_pattern content) eqn:E; [|reflexivity].
  apply re_search_inv in E as [l [t [-> Ht]]]. apply ansi_needs_ESC in Ht as [rest ->].
  assert (existsb (N.eqb LogProcessor.ESC) (l ++ LogProcessor.ESC :: rest) = true);
    [|congruence].
  apply existsb_exists. exists LogProcessor.ESC. split; [|apply N.eqb_refl].
  apply in_or_app. right. now left.
Qed.

Lemma clean_without_tokens_witness :
  LogProcessor.clean true (str "[12:00:01] [main/INFO]: Done (3.2s)")
  = str "[12:00:01] [main/INFO]: Done (3.2s)".
Proof. apply clean_without_tokens; reflexivity. Defined.

End ProcessorExtras.

(** * Further properties of the configuration layer *)

Section ConfigExtras.

Import ConfigManager.

(** ** Keyword strings *)

Lemma split_nonempty sep s : split sep s <> [].
Proof.
  induction s as [|c s IH]; simpl; [discriminate|].
  destruct (N.eqb c sep); [discriminate|]. destruct (split sep s); discriminate.
Qed.

(** The pieces are made of characters of the string other than the separator. *)
Lemma split_pieces sep s piece c :
  In piece (split sep s) -> In c piece -> In c s /\ c <> sep.
Proof.
  revert piece. induction s as [|x s IH]; simpl; intros piece Hp Hc.
  - destruct Hp as [<-|[]]. destruct Hc.
  - destruct (N.eqb_spec x sep) as [->|Hne].
    + destruct Hp as [<-|Hp]; [destruct Hc|].
      destruct (IH piece Hp Hc). auto.
    + destruct (split sep s) as [|p ps] eqn:E; [now destruct (split_nonempty sep s)|].
      destruct Hp as [<-|Hp].
      * destruct Hc as [<-|Hc]; [auto|].
        destruct (IH p (or_introl eq_refl) Hc). auto.
      * destruct (IH piece (or_intror Hp) Hc). auto.
Qed.

(** Every character other than the separator lies in some piece. *)
Lemma split_covers sep s c :
  In c s -> c <> sep -> exists piece, In piece (split sep s) /\ In c piece.
Proof.
  induction s as [|x s IH]; simpl; [intros []|]. intros Hc Hne.
  destruct (N.eqb_spec x sep) as [->|Hx].
  - destruct Hc as [->|Hc]; [congruence|].
    destruct (IH Hc Hne) as [piece [Hp Hin]]. exists piece. split; [now right | assumption].
  - destruct (split sep s) as [|p ps] eqn:E; [now destruct (split_nonempty sep s)|].
    destruct Hc as [->|Hc].
    + exists (c :: p). split; now left.
    + destruct (IH Hc Hne) as [piece [[<-|Hp] Hin]].
      * exists (x :: p). split; [now left | now right].
      * exists piece. split; [now right | assumption].
Qed.

Lemma lstrip_blank s : Forall (fun c => isspace c = true) s -> lstrip s = [].
Proof.
  induction 1 as [|c s Hc _ IH]; simpl; [reflexivity|]. now rewrite Hc.
Qed.

Lemma strip_blank s : Forall (fun c => isspace c = true) s -> strip s = [].
Proof. intros H. unfold strip, rstrip. now rewrite (lstrip_blank s H). Qed.

(** [strip] keeps every character that is not whitespace. *)
Lemma strip_keeps s c : In c s -> isspace c = false -> In c (strip s).
Proof.
  intros Hc Hns. unfold strip.
  destruct (lstrip_split s) as [l [El Hl]].
  destruct (rstrip_split (lstrip s)) as [r [Er Hr]].
  rewrite El, Er in Hc. rewrite List.Forall_forall in Hl, Hr.
  apply in_app_or in Hc as [Hc|Hc]; [apply Hl in Hc; congruence|].
  apply in_app_or in Hc as [Hc|Hc]; [assumption | apply Hr in Hc; congruence].
Qed.

(** X15. A raw keyword string yields no keyword at all exactly when it
    consists of commas and whitespace only (the empty string included). *)
Theorem keywords_none (raw : text) :
  keywords raw = [] <-> Forall (fun c => isspace c = true \/ c = 44%N) raw.
Proof.
  split.
  - intros Hnone. apply List.Forall_forall. intros c Hc.
    destruct (isspace c) eqn:Hs; [now left|]. right.
    destruct (N.eq_dec c 44%N) as [|Hne]; [assumption | exfalso].
    destruct (split_covers 44%N raw c Hc Hne) as [piece [Hp Hin]].
    assert (Hk : In (strip piece) (keywords raw)).
    { apply keywords_elem. exists piece. repeat split; [assumption|].
      intros E. apply (strip_keeps piece c Hin) in Hs. rewrite E in Hs. destruct Hs. }
    rewrite Hnone in Hk. destruct Hk.
  - intros Hall. destruct (keywords raw) as [|k ks] eqn:E; [reflexivity | exfalso].
    assert (Hk : In k (keywords raw)) by (rewrite E; now left).
    apply keywords_elem in Hk as [piece [Hp [Hne _]]]. apply Hne, strip_blank.
    apply List.Forall_forall. intros c Hc.
    destruct (split_pieces 44%N raw piece c Hp Hc) as [Hin Hsep].
    rewrite List.Forall_forall in Hall. destruct (Hall c Hin); congruence.
Qed.

(** ** Encodings *)

Lemma text_in_spec x l : text_in x l = true <-> In x l.
Proof.
  unfold text_in. rewrite existsb_exists. split.
  - intros [y [Hin Hy]]. apply bool_decide_eq_true in Hy. now subst.
  - intros Hin. exists x. split; [assumption | now apply bool_decide_eq_true].
Qed.

Ltac load_cases :=
  unfold _validate_and_load_params;
  repeat match goal with
         | |- context [_get_param ?c ?s ?k ?d ?v] =>
             destruct (_get_param c s k d v) eqn:?;
             cbv beta iota delta [mbind option_bind]; [|exact I]
         end.

(** X10. The derived [encoding] is always one of the supported encodings and
    the derived [error_handle] one of the supported policies: a configured
    value that is supported is kept, any other becomes ["utf-8"], resp.
    ["replace"]. *)
Theorem encoding_supported (config : ConfigParser) :
  match _validate_and_load_params config with
  | Some p =>
      In (encoding p) _SUPPORTED_ENCODINGS /\
      In (error_handle p) _SUPPORTED_ERROR_HANDLES /\
      (exists v, _get_param config "ReadConfig" "Encoding" Str (str "utf-8") = Some v /\
                 encoding p = if text_in v _SUPPORTED_ENCODINGS then v else str "utf-8") /\
      (exists v, _get_param config "ReadConfig" "Error_Handle" Str (str "replace") = Some v /\
                 error_handle p = if text_in v _SUPPORTED_ERROR_HANDLES then v else str "replace")
  | None => True
  end.
Proof.
  load_cases.
  repeat match goal with
         | H1 : ?x = Some ?a, H2 : ?x = Some ?b |- _ =>
             assert (a = b) by congruence; subst; clear H2
         end.
  repeat split.
  - match goal with |- context [text_in ?v _] => destruct (text_in v _SUPPORTED_ENCODINGS) eqn:E end.
    + now apply text_in_spec.
    + now left.
  - match goal with
    | |- context [text_in ?v _SUPPORTED_ERROR_HANDLES] =>
        destruct (text_in v _SUPPORTED_ERROR_HANDLES) eqn:E
    end.
    + now apply text_in_spec.
    + now left.
  - eexists. split; reflexivity.
  - eexists. split; reflexivity.
Qed.

(** ** Defaults and clamped values *)

Lemma _get_param_unanswered {A} config sec key (dt : dtype A) default :
  falls_back config -> _get_param config sec key dt default = Some default.
Proof.
  intros H. unfold _get_param. destruct (H sec key) as [Hs | [Hb [Hi [Hf Hg]]]].
  - now rewrite Hs.
  - destruct (negb (has_section config sec)); [reflexivity|].
    destruct dt; [destruct Hb as [->| ->] | destruct Hi as [->| ->]
                 | destruct Hf as [->| ->] | destruct Hg as [->| ->]]; reflexivity.
Qed.

(** X11. When the parser gives no value for any key (sections or keys are
    missing, or values do not convert), the derivation does not fail and
    every parameter takes its default: the defaults lie inside the clamping
    intervals, 1000 ms become 1 second, and the default keyword strings give
    the keywords ERROR, WARN, INFO and DEBUG. *)
Theorem defaults_when_unanswered (config : ConfigParser) :
  falls_back config ->
  exists p,
    _validate_and_load_params config = Some p /\
    file_path p = default_File_Path /\ wait_for_file p = true /\
    wait_interval p = f5_0 /\ chunk_size p = 32768 /\
    encoding p = str "utf-8" /\ error_handle p = str "replace" /\
    interval p = f1_0 /\ read_full_on_truncate p = true /\
    truncate_sensitivity p = 1024 /\ show_status p = true /\ filter_ansi p = false /\
    (forall k, In k (include_keywords p) <-> In k [str "ERROR"; str "WARN"; str "INFO"]) /\
    exclude_keywords p = [str "DEBUG"] /\
    auto_close_delay p = 3 /\ show_stats p = true.
Proof.
  intros H. unfold _validate_and_load_params.
  rewrite !(_get_param_unanswered config _ _ _ _ H).
  cbv beta iota delta [mbind option_bind].
  eexists. split; [reflexivity|]. cbn [file_path wait_for_file wait_interval chunk_size
    encoding error_handle interval read_full_on_truncate truncate_sensitivity show_status
    filter_ansi include_keywords exclude_keywords auto_close_delay show_stats].
  do 11 (split; [vm_compute; reflexivity|]).
  split; [|vm_compute; repeat split; reflexivity].
  intros k. vm_compute. intuition.
Qed.

Lemma defaults_when_unanswered_witness :
  exists p,
    _validate_and_load_params empty_config = Some p /\
    file_path p = default_File_Path /\ wait_for_file p = true /\
    wait_interval p = f5_0 /\ chunk_size p = 32768 /\
    encoding p = str "utf-8" /\ error_handle p = str "replace" /\
    interval p = f1_0 /\ read_full_on_truncate p = true /\
    truncate_sensitivity p = 1024 /\ show_status p = true /\ filter_ansi p = false /\
    (forall k, In k (include_keywords p) <-> In k [str "ERROR"; str "WARN"; str "INFO"]) /\
    exclude_keywords p = [str "DEBUG"] /\
    auto_close_delay p = 3 /\ show_stats p = true.
Proof.
  apply (defaults_when_unanswered empty_config). intros sec key. left. reflexivity.
Defined.

Lemma _get_param_got {A} config sec key (dt : dtype A) default v :
  has_section config sec = true ->
  match dt in dtype T return T -> Prop with
  | Bool => fun v => getboolean config sec key = Got v
  | Int => fun v => getint config sec key = Got v
  | Float => fun v => getfloat config sec key = Got v
  | Str => fun v => exists raw, get config sec key = Got raw /\ v = strip raw
  end v ->
  _get_param config sec key dt default = Some v.
Proof.
  intros Hs. unfold _get_param. rewrite Hs. simpl.
  destruct dt; try (intros ->; reflexivity).
  intros [raw [-> ->]]. reflexivity.
Qed.

Lemma clamp_int_value lo hi x : lo <= hi -> max_int lo (min_int x hi) = Z.max lo (Z.min x hi).
Proof.
  intros H. unfold max_int, min_int, py_max, py_min.
  destruct (Z.ltb_spec hi x); destruct (Z.ltb_spec lo hi);
    try destruct (Z.ltb_spec lo x); lia.
Qed.

Ltac loaded H :=
  unfold _validate_and_load_params in H;
  repeat match type of H with
         | context [_get_param ?c ?s ?k ?d ?v] =>
             destruct (_get_param c s k d v) eqn:?;
             cbv beta iota delta [mbind option_bind] in H; [|discriminate H]
         end;
  injection H as <-;
  cbn [wait_interval chunk_size interval truncate_sensitivity auto_close_delay].

(** X12. An integer the parser returns for [Chunk_Size],
    [Truncate_Sensitivity] or [Auto_Close_Delay] is used as it is when it
    lies in the parameter's interval, and is replaced by the nearer bound
    when it lies outside. *)
Theorem int_params_saturate (config : ConfigParser) (p : Params) :
  _validate_and_load_params config = Some p ->
  (forall x, has_section config "ReadConfig" = true ->
             getint config "ReadConfig" "Chunk_Size" = Got x ->
             chunk_size p = Z.max 4096 (Z.min x 131072)) /\
  (forall x, has_section config "MonitorConfig" = true ->
             getint config "MonitorConfig" "Truncate_Sensitivity" = Got x ->
             truncate_sensitivity p = Z.max 128 (Z.min x 4096)) /\
  (forall x, has_section config "QuitConfig" = true ->
             getint config "QuitConfig" "Auto_Close_Delay" = Got x ->
             auto_close_delay p = Z.max 0 (Z.min x 10)).
Proof.
  intros H. loaded H.
  repeat split; intros x Hs Hx;
    match goal with
    | E : _get_param config ?s ?k Int ?d = Some ?z |- context [?z] =>
        rewrite (_get_param_got config s k Int d x Hs Hx) in E; injection E as <-
    end; apply clamp_int_value; lia.
Qed.

Lemma int_params_saturate_witness :
  let p := match _validate_and_load_params wild_config with
           | Some p => p
           | None => default_params
           end in
  chunk_size p = 131072 /\ truncate_sensitivity p = 4096 /\ auto_close_delay p = 10.
Proof.
  intros p.
  destruct (int_params_saturate wild_config p eq_refl) as [H1 [H2 H3]].
  rewrite (H1 1000000 eq_refl eq_refl), (H2 1000000 eq_refl eq_refl),
    (H3 1000000 eq_refl eq_refl).
  repeat split.
Defined.

(** Comparison of two positive finite floats: by exponent, then mantissa. *)
Lemma SFltb_positive m1 e1 m2 e2 :
  reflect (e1 < e2 \/ (e1 = e2 /\ (m1 < m2)%positive))
          (SFltb (S754_finite false m1 e1) (S754_finite false m2 e2)).
Proof.
  apply iff_reflect. unfold SFltb. simpl.
  change (Pos.compare_cont Eq m1 m2) with (Pos.compare m1 m2).
  destruct (Z.compare_spec e1 e2); [destruct (Pos.compare_spec m1 m2)| |];
    split; try discriminate; try reflexivity; lia.
Qed.

(** Python's clamp on floats, for two positive bounds of different
    exponents. *)
Lemma clamp_float_value_eq mlo elo mhi ehi x :
  elo < ehi ->
  let lo := S754_finite false mlo elo in
  let hi := S754_finite false mhi ehi in
  max_float lo (min_float x hi) = clamp_float_value lo hi x.
Proof.
  intros He lo hi. unfold max_float, min_float, py_max, py_min, clamp_float_value, lo, hi.
  assert (Hlh : SFltb (S754_finite false mlo elo) (S754_finite false mhi ehi) = true).
  { destruct (SFltb_positive mlo elo mhi ehi); [reflexivity | lia]. }
  destruct x as [s|s| |s m e].
  - change (SFltb (S754_finite false mhi ehi) (S754_zero s)) with false.
    change (SFltb (S754_finite false mlo elo) (S754_zero s)) with false.
    reflexivity.
  - destruct s.
    + change (SFltb (S754_finite false mhi ehi) (S754_infinity true)) with false.
      change (SFltb (S754_finite false mlo elo) (S754_infinity true)) with false.
      reflexivity.
    + change (SFltb (S754_finite false mhi ehi) (S754_infinity false)) with true.
      cbv iota. rewrite Hlh. reflexivity.
  - reflexivity.
  - destruct s.
    + change (SFltb (S754_finite false mhi ehi) (S754_finite true m e)) with false.
      change (SFltb (S754_finite false mlo elo) (S754_finite true m e)) with false.
      reflexivity.
    + cbn [is_nan].
      destruct (SFltb_positive mhi ehi m e) as [A|A];
        destruct (SFltb_positive m e mlo elo) as [C|C].
      * lia.
      * now rewrite Hlh.
      * destruct (SFltb_positive mlo elo m e); [lia | reflexivity].
      * destruct (SFltb_positive mlo elo m e) as [B|B]; [reflexivity|].
        assert (e = elo) by lia. assert (m = mlo) by lia. now subst.
Qed.

(** X13. A float the parser returns for [Wait_Interval] is clamped to
    [1.0, 30.0], and for [Interval_MS], after the division by 1000, to
    [0.1, 5.0]: a value inside the interval is used as it is, a value below
    (above) becomes the lower (upper) bound, and a NaN becomes the lower
    bound. *)
Theorem float_params_clamped (config : ConfigParser) (p : Params) :
  _validate_and_load_params config = Some p ->
  (forall x, has_section config "LogSource" = true ->
             getfloat config "LogSource" "Wait_Interval" = Got x ->
             wait_interval p = clamp_float_value f1_0 f30_0 x) /\
  (forall ms, has_section config "MonitorConfig" = true ->
              getfloat config "MonitorConfig" "Interval_MS" = Got ms ->
              interval p = clamp_float_value f0_1 f5_0 (div1000 ms) /\
              (is_nan ms = true -> interval p = f0_1)).
Proof.
  intros H. loaded H.
  split; [intros x Hs Hx | intros ms Hs Hx];
    match goal with
    | E : _get_param config ?s ?k Float ?d = Some ?z |- context [?z] =>
        rewrite (_get_param_got config s k Float d _ Hs Hx) in E; injection E as <-
    end.
  - apply clamp_float_value_eq. lia.
  - split; [apply clamp_float_value_eq; lia|].
    destruct ms; try discriminate. reflexivity.
Qed.

Lemma float_params_clamped_witness :
  let p := match _validate_and_load_params wild_config with
           | Some p => p
           | None => default_params
           end in
  wait_interval p = f1_0 /\ interval p = f0_1.
Proof.
  intros p. destruct (float_params_clamped wild_config p eq_refl) as [H1 H2].
  rewrite (H1 S754_nan eq_refl eq_refl).
  destruct (H2 S754_nan eq_refl eq_refl) as [_ H3]. rewrite (H3 eq_refl).
  split; reflexivity.
Defined.

(** ** The corruption check *)

Lemma all_params_spec view sec params :
  name_in sec (sections view) = true ->
  all_params view sec params = Some (forallb (has_option view sec) params).
Proof.
  intros Hs. induction params as [|q params IH]; simpl; [reflexivity|].
  rewrite Hs. destruct (has_option view sec q); [exact IH | reflexivity].
Qed.

Lemma missing_param_spec view items :
  forallb (fun sec => name_in sec (sections view)) (List.map fst items) = true ->
  missing_param view items =
  Some (negb (forallb (fun item => forallb (has_option view (fst item)) (snd item)) items)).
Proof.
  induction items as [|[sec params] items IH]; simpl; [reflexivity|].
  intros H. apply andb_true_iff in H as [Hs Hrest].
  rewrite (all_params_spec view sec params Hs).
  destruct (forallb (has_option view sec) params); simpl; [now apply IH | reflexivity].
Qed.

(** X17. [_is_config_corrupt] never fails with [KeyError]: the sections it
    subscripts are the ones it has checked first.  It answers [False] exactly
    when every required section exists and holds every required key; further
    sections and keys do not matter. *)
Theorem _is_config_corrupt_spec (view : ParserView) :
  exists b,
    _is_config_corrupt view = Some b /\
    (b = false <->
     forall sec params, In (sec, params) _REQUIRED_PARAMS ->
       In sec (sections view) /\ forall q, In q params -> has_option view sec q = true).
Proof.
  assert (Hname : forall x l, name_in x l = true <-> In x l).
  { intros x l. unfold name_in. rewrite existsb_exists. split.
    - intros [y [Hin Hy]]. apply String.eqb_eq in Hy. now subst.
    - intros Hin. exists x. split; [assumption | apply String.eqb_refl]. }
  unfold _is_config_corrupt.
  change _REQUIRED_SECTIONS with (List.map fst _REQUIRED_PARAMS).
  destruct (forallb (fun sec => name_in sec (sections view)) (List.map fst _REQUIRED_PARAMS))
    eqn:Hsecs; cbn [negb].
  - rewrite (missing_param_spec view _ Hsecs). eexists. split; [reflexivity|].
    rewrite negb_false_iff, forallb_forall. rewrite forallb_forall in Hsecs. split.
    + intros H sec params Hin. split.
      * apply Hname, Hsecs. apply in_map_iff. exists (sec, params). auto.
      * specialize (H _ Hin). simpl in H. rewrite forallb_forall in H. exact H.
    + intros H [sec params] Hin. simpl. apply forallb_forall. now apply H.
  - exists true. split; [reflexivity|]. split; [discriminate|]. intros H. exfalso.
    assert (forallb (fun sec => name_in sec (sections view)) (List.map fst _REQUIRED_PARAMS)
            = true); [|congruence].
    apply forallb_forall. intros sec Hin. apply in_map_iff in Hin as [[sec' params] [<- Hin]].
    apply Hname. now apply (H sec' params).
Qed.

End ConfigExtras.

(** * Further properties of the engine *)

Section EngineExtras.

Import ConfigManager LogMonitor.

Ltac unfold_monad := unfold bind, ret, gets, modify, emit, _print_status, raise, sys_exit.

(** ** Validation *)



Lemma wait_present p fuel m :
  fs_exists (fs m) = true -> wait_for_the_file p fuel m = (Ret tt, m).
Proof. intros H. destruct fuel; cbn [wait_for_the_file]; unfold_monad; now rewrite H. Qed.

Lemma wait_step p fuel m :
  fs_exists (fs m) = false -> wait_for_file p = true ->
  wait_for_the_file p (S fuel) m =
  wait_for_the_file p fuel
    (advance (set_out ((out m ++ [Status MsgFileMissing]) ++ [Sleep (wait_interval p)])
                (set_out (out m ++ [Status MsgFileMissing]) m))).
Proof.
  intros Hm Hw. cbn [wait_for_the_file]. unfold bind at 1. unfold gets at 1.
  rewrite Hm, Hw. reflexivity.
Qed.

(** X2. With waiting enabled, [_validate_file] retries once per
    [wait_interval] for as long as the path is missing: when the file is
    missing now and after each of the next [k] sleeps and is there, regular
    and readable, after one more, the call reports the missing file and
    sleeps [k + 1] times, then confirms the file, and nothing else. *)
Theorem _validate_file_waits (p : Params) (absent : list FileSys) :
  forall (m : Machine) (f : FileSys) (rest : list FileSys) (fuel : nat),
  wait_for_file p = true ->
  fs_exists (fs m) = false ->
  Forall (fun x => fs_exists x = false) absent ->
  future m = absent ++ f :: rest ->
  fs_exists f = true -> fs_is_file f = true -> fs_access f = true ->
  (List.length absent < fuel)%nat ->
  exists m',
    _validate_file p fuel m = (Ret tt, m') /\
    fs m' = f /\ future m' = rest /\
    out m' = out m
             ++ concat (repeat [Status MsgFileMissing; Sleep (wait_interval p)]
                               (S (List.length absent)))
             ++ [Status MsgValidated].
Proof.
  induction absent as [|a absent IH]; intros m f rest fuel Hw Hm Habs Hfut Hf1 Hf2 Hf3 Hfuel;
    (destruct fuel as [|fuel]; [simpl in Hfuel; lia|]);
    set (m1 := advance (set_out ((out m ++ [Status MsgFileMissing]) ++ [Sleep (wait_interval p)])
                          (set_out (out m ++ [Status MsgFileMissing]) m)));
    assert (Estep : _validate_file p (S fuel) m = _validate_file p fuel m1)
      by (unfold _validate_file, bind; now rewrite (wait_step p fuel m Hm Hw));
    assert (Eout : out m1 = out m ++ [Status MsgFileMissing; Sleep (wait_interval p)])
      by (unfold m1, advance; simpl; rewrite Hfut; simpl; now rewrite <- app_assoc);
    rewrite Estep.
  - assert (Efs : fs m1 = f /\ future m1 = rest)
      by (unfold m1, advance; simpl; rewrite Hfut; simpl; auto).
    destruct Efs as [Efs Efut].
    unfold _validate_file, bind. rewrite wait_present by now rewrite Efs.
    unfold_monad. simpl. rewrite Efs, Hf2. simpl. rewrite ?Efs, Hf3. simpl.
    eexists. split; [reflexivity|]. simpl. rewrite Eout, <- app_assoc. auto.
  - inversion Habs as [|? ? Ha Habs']; subst.
    assert (Efs : fs m1 = a /\ future m1 = absent ++ f :: rest)
      by (unfold m1, advance; simpl; rewrite Hfut; simpl; auto).
    destruct Efs as [Efs Efut].
    destruct (IH m1 f rest fuel Hw) as [m' [E [Hfs [Hfu Hout]]]]; auto.
    { now rewrite Efs. }
    { simpl in Hfuel. lia. }
    exists m'. split; [exact E|]. split; [exact Hfs|]. split; [exact Hfu|].
    rewrite Hout, Eout. cbn [repeat concat]. rewrite <- !app_assoc. reflexivity.
Qed.

Lemma _validate_file_waits_witness :
  let m := new_monitor no_file [no_file; no_file; plain_file (str "INFO up")] None in
  exists m',
    _validate_file default_params 5 m = (Ret tt, m') /\
    fs m' = plain_file (str "INFO up") /\ future m' = [] /\
    out m' = out m
             ++ concat (repeat [Status MsgFileMissing; Sleep (wait_interval default_params)] 3)
             ++ [Status MsgValidated].
Proof.
  intros m.
  apply (_validate_file_waits default_params [no_file; no_file] m
           (plain_file (str "INFO up")) [] 5); try reflexivity.
  - repeat constructor.
  - simpl. lia.
Defined.

(** ** Closing and size checks *)

(** X6. [_close_file] never raises and always leaves the monitor without a
    handle.  It calls [close] exactly when an open handle is held; a failing
    [close] is counted as one error, and nothing else changes the counters. *)
Theorem _close_file_absorbs (m : Machine) :
  exists evs m',
    _close_file m = (Ret tt, m') /\ _file m' = None /\
    out m' = out m ++ evs /\
    closes evs = (if holds_open m then 1 else 0)%nat /\
    errors (_stats m') =
      errors (_stats m) + (if holds_open m && negb (fs_close_ok (fs m)) then 1 else 0) /\
    logs (_stats m') = logs (_stats m) /\ bytes (_stats m') = bytes (_stats m) /\
    truncates (_stats m') = truncates (_stats m) /\
    _is_running m' = _is_running m /\ _last_file_size m' = _last_file_size m.
Proof.
  unfold _close_file, try_except, file_close, holds_open. unfold_monad. simpl.
  destruct (_file m) as [h|]; simpl.
  - destruct (closed h); simpl.
    + exists []. eexists. split; [reflexivity|]. simpl. rewrite app_nil_r.
      repeat split; auto; lia.
    + destruct (fs_close_ok (fs m)); simpl.
      * exists [FileClose; Status MsgHandleClosed]. eexists. split; [reflexivity|].
        simpl. rewrite <- app_assoc. repeat split; auto; lia.
      * exists [FileClose; Status MsgCloseFailed]. eexists. split; [reflexivity|].
        simpl. rewrite <- app_assoc. repeat split; auto.
  - exists []. eexists. split; [reflexivity|]. simpl. rewrite app_nil_r.
    repeat split; auto; lia.
Qed.

(** X7. [_detect_truncate] never raises.  A failing size check is counted as
    one error, answers no truncation and keeps the last known size; the
    truncation counter goes up by one exactly when the answer is true; the
    handle and the two read counters are never touched. *)
Theorem _detect_truncate_counts (p : Params) (m : Machine) :
  exists (b : bool) m',
    _detect_truncate p m = (Ret b, m') /\
    truncates (_stats m') = truncates (_stats m) + (if b then 1 else 0) /\
    errors (_stats m') =
      errors (_stats m) + (match fs_stat (fs m) with Some _ => 0 | None => 1 end) /\
    (fs_stat (fs m) = None -> b = false /\ _last_file_size m' = _last_file_size m) /\
    logs (_stats m') = logs (_stats m) /\ bytes (_stats m') = bytes (_stats m) /\
    _file m' = _file m /\ _is_running m' = _is_running m.
Proof.
  unfold _detect_truncate, try_except, os_stat. unfold_monad. simpl.
  destruct (fs_stat (fs m)) as [current|]; simpl.
  - destruct ((current <? _last_file_size m) &&
              (truncate_sensitivity p <=? Z.abs (current - _last_file_size m)));
      simpl; eexists; eexists; (split; [reflexivity|]); simpl;
      repeat split; auto; try lia; discriminate.
  - eexists; eexists; (split; [reflexivity|]); simpl; repeat split; auto; lia.
Qed.

(** ** The counters *)

Lemma stats_le_refl s : stats_le s s.
Proof. unfold stats_le. lia. Qed.

Lemma stats_le_trans a b c : stats_le a b -> stats_le b c -> stats_le a c.
Proof. unfold stats_le. lia. Qed.

Lemma grows_same {A} (Q : A -> Prop) (c : M A) :
  (forall m, _stats (snd (c m)) = _stats m /\
             match fst (c m) with Ret a => Q a | Abort _ => True end) ->
  grows Q c.
Proof. intros H m. destruct (H m) as [-> HQ]. split; [apply stats_le_refl | exact HQ]. Qed.

Lemma grows_bind {A B} (Q : A -> Prop) (R : B -> Prop) (c : M A) (k : A -> M B) :
  grows Q c -> (forall a, Q a -> grows R (k a)) -> grows R (bind c k).
Proof.
  intros Hc Hk m. unfold bind. destruct (Hc m) as [H1 H2].
  destruct (c m) as [[a|x] m']; simpl in *; [|auto].
  destruct (Hk a H2 m') as [H3 H4]. split; [|exact H4].
  eapply stats_le_trans; eassumption.
Qed.

Lemma grows_try_except {A} (Q : A -> Prop) (body : M A) handler :
  grows Q body -> (forall e, grows Q (handler e)) -> grows Q (try_except body handler).
Proof.
  intros Hb Hh m. unfold try_except. destruct (Hb m) as [H1 H2].
  destruct (body m) as [[a|[e|code|]] m']; simpl in *; auto.
  destruct (Hh e m') as [H3 H4]. split; [|exact H4]. eapply stats_le_trans; eassumption.
Qed.

Lemma grows_try_finally {A} (Q : A -> Prop) (body : M A) fin :
  grows Q body -> grows (fun _ => True) fin -> grows (fun _ => True) (try_finally body fin).
Proof.
  intros Hb Hf m. unfold try_finally. destruct (Hb m) as [H1 _].
  destruct (body m) as [[a|[e|code|]] m']; simpl in *; auto;
    destruct (Hf m') as [H3 _]; destruct (fin m') as [[u|x] m'']; simpl in *;
    (split; [eapply stats_le_trans; eassumption | exact I]).
Qed.

Lemma grows_any {A} (Q : A -> Prop) (c : M A) : grows Q c -> grows (fun _ => True) c.
Proof. intros H m. destruct (H m) as [H1 _]. split; [exact H1|]. now destruct (fst (c m)). Qed.

Ltac same_stats :=
  apply grows_same; intros ?m; unfold_monad;
  unfold out_of_fuel, os_open, os_stat, file_read, file_seek_end, file_close, advance; simpl;
  repeat match goal with
         | |- context [match ?x with _ => _ end] => destruct x; simpl
         end; auto.

Ltac more_stats :=
  intros ?m; unfold_monad; simpl; split; [unfold stats_le; simpl; lia | exact I].

Ltac step_grows :=
  repeat first
    [ apply grows_bind with (Q := fun _ => True); [|intros ? _]
    | apply grows_try_except; [|intros ?]
    | match goal with
      | |- grows _ (if ?b then _ else _) => destruct b
      | |- grows _ (match ?x with _ => _ end) => destruct x
      end
    | solve [same_stats]
    | solve [more_stats] ].

Lemma grows_close_file : grows (fun _ => True) _close_file.
Proof. unfold _close_file. step_grows. Qed.

Lemma len_nonneg s : 0 <= len s.
Proof. unfold len. lia. Qed.

Lemma grows_read_all p rounds : forall total,
  grows (fun total' => total <= total') (read_all p rounds total).
Proof.
  induction rounds as [|rounds IH]; intros total; cbn [read_all].
  - same_stats.
  - apply grows_bind with (Q := fun _ => True); [same_stats | intros chunk _].
    destruct chunk as [|c chunk]; [apply grows_same; intros m; simpl; split; [reflexivity | lia]|].
    apply grows_bind with (Q := fun _ => True); [step_grows | intros _ _].
    intros m. destruct (IH (total + len (c :: chunk)) m) as [H1 H2]. split; [exact H1|].
    destruct (read_all p rounds (total + len (c :: chunk)) m) as [[total'|x] m']; [|exact I].
    pose proof (len_nonneg (c :: chunk)). simpl in *. lia.
Qed.

Lemma grows_open_file p read_full : grows (fun _ => True) (_open_file p read_full).
Proof.
  unfold _open_file.
  apply grows_bind with (Q := fun _ => True); [apply grows_close_file | intros _ _].
  apply grows_try_except; [|intros e; same_stats].
  apply grows_bind with (Q := fun _ => True); [same_stats | intros h _].
  apply grows_bind with (Q := fun _ => True); [same_stats | intros _ _].
  apply grows_bind with (Q := fun _ => True); [same_stats | intros size _].
  apply grows_bind with (Q := fun _ => True); [same_stats | intros _ _].
  apply grows_bind with (Q := fun _ => True); [same_stats | intros _ _].
  destruct read_full; [|step_grows].
  apply grows_bind with (Q := fun _ => True); [same_stats | intros _ _].
  apply grows_bind with (Q := fun _ => True); [same_stats | intros rounds _].
  apply grows_bind with (Q := fun total => 0 <= total); [apply grows_read_all | intros total Ht].
  apply grows_bind with (Q := fun _ => True); [|intros _ _; same_stats].
  intros m. unfold_monad. simpl. split; [|exact I].
  unfold stats_le. simpl. pose proof (Z.div_pos total 100 Ht). lia.
Qed.

Lemma grows_countdown i : grows (fun _ => True) (countdown i).
Proof.
  induction i as [|i IH]; cbn [countdown]; [same_stats|].
  apply grows_bind with (Q := fun _ => True); [same_stats | intros _ _].
  apply grows_bind with (Q := fun _ => True); [same_stats | intros _ _]. exact IH.
Qed.

Lemma grows_stop p : grows (fun _ => True) (stop p).
Proof.
  unfold stop, _print_stats.
  apply grows_bind with (Q := fun _ => True); [same_stats | intros running _].
  destruct (negb running); [same_stats|].
  apply grows_bind with (Q := fun _ => True); [same_stats | intros _ _].
  apply grows_bind with (Q := fun _ => True); [same_stats | intros _ _].
  apply grows_bind with (Q := fun _ => True); [apply grows_close_file | intros _ _].
  apply grows_bind with (Q := fun _ => True); [step_grows | intros _ _].
  apply grows_bind with (Q := fun _ => True); [|intros _ _; same_stats].
  destruct (0 <? auto_close_delay p); [|same_stats].
  apply grows_bind with (Q := fun _ => True); [same_stats | intros _ _].
  apply grows_countdown.
Qed.

Lemma grows_detect p : grows (fun _ => True) (_detect_truncate p).
Proof. unfold _detect_truncate. step_grows. Qed.

Lemma grows_poll_cycle p : grows (fun _ => True) (poll_cycle p).
Proof.
  unfold poll_cycle, poll_sleep.
  apply grows_bind with (Q := fun _ => True); [apply grows_detect | intros truncated _].
  destruct (truncated && read_full_on_truncate p); [apply grows_open_file|].
  apply grows_bind with (Q := fun _ => True); [same_stats | intros f _].
  apply grows_bind with (Q := fun _ => True).
  - destruct f; [|same_stats].
    apply grows_bind with (Q := fun _ => True); [same_stats | intros chunk _].
    destruct chunk as [|c chunk]; [same_stats|].
    apply grows_bind with (Q := fun _ => True); [|intros _ _; step_grows].
    intros m. unfold_monad. simpl. split; [|exact I].
    unfold stats_le. simpl. pose proof (len_nonneg (c :: chunk)). lia.
  - intros _ _.
    apply grows_bind with (Q := fun _ => True); [same_stats | intros _ _].
    apply grows_bind with (Q := fun _ => True); [same_stats | intros _ _].
    apply grows_bind with (Q := fun _ => True); [same_stats | intros req _].
    destruct req as [[|k]|]; [|same_stats|same_stats].
    apply grows_bind with (Q := fun _ => True); [same_stats | intros _ _].
    apply grows_stop.
Qed.

Lemma grows_poll_loop p fuel : grows (fun _ => True) (poll_loop p fuel).
Proof.
  induction fuel as [|fuel IH]; cbn [poll_loop];
    (apply grows_bind with (Q := fun _ => True); [same_stats | intros running _]);
    (destruct (negb running); [same_stats|]); [same_stats|].
  apply grows_bind with (Q := fun _ => True); [apply grows_poll_cycle | intros _ _]. exact IH.
Qed.

Lemma grows_wait p fuel : grows (fun _ => True) (wait_for_the_file p fuel).
Proof.
  induction fuel as [|fuel IH]; cbn [wait_for_the_file];
    (apply grows_bind with (Q := fun _ => True); [same_stats | intros present _]);
    (destruct present; [same_stats|]); (destruct (wait_for_file p); [|same_stats]);
    [same_stats|].
  apply grows_bind with (Q := fun _ => True); [same_stats | intros _ _].
  apply grows_bind with (Q := fun _ => True); [same_stats | intros _ _].
  apply grows_bind with (Q := fun _ => True); [same_stats | intros _ _]. exact IH.
Qed.

Lemma grows_start p fuel : grows (fun _ => True) (start p fuel).
Proof.
  unfold start.
  apply grows_bind with (Q := fun _ => True); [same_stats | intros _ _].
  apply grows_try_finally with (Q := fun _ => True); [|apply grows_stop].
  apply grows_try_except; [|intros e; step_grows].
  apply grows_bind with (Q := fun _ => True).
  - unfold _validate_file.
    apply grows_bind with (Q := fun _ => True); [apply grows_wait | intros _ _]. step_grows.
  - intros _ _.
    apply grows_bind with (Q := fun _ => True); [apply grows_open_file | intros _ _].
    apply grows_bind with (Q := fun _ => True); [same_stats | intros _ _].
    apply grows_poll_loop.
Qed.

(** X1. The four counters (logs, bytes, truncations, errors) never go down:
    whatever the file does and however the run ends, none is lower after
    [start] than before; and at the end of any run of [main] all four are
    non-negative. *)
Theorem counters_never_decrease :
  (forall p fuel m, stats_le (_stats m) (_stats (snd (start p fuel m)))) /\
  (forall config fuel now later signal,
     let s := _stats (snd (main config fuel (new_monitor now later signal))) in
     0 <= logs s /\ 0 <= bytes s /\ 0 <= truncates s /\ 0 <= errors s).
Proof.
  split.
  - intros p fuel m. apply (grows_start p fuel m).
  - intros config fuel now later signal. unfold main, try_except.
    destruct (_validate_and_load_params config) as [p|]; [|simpl; lia].
    pose proof (grows_start p fuel (new_monitor now later signal)) as [H _].
    destruct (start p fuel (new_monitor now later signal)) as [[u|[e|code|]] m'];
      simpl in *; unfold stats_le in H; simpl in H; lia.
Qed.

(** ** The incremental read of a poll cycle *)

#[local] Arguments poll_sleep : simpl never.

Lemma replays_eq p m : replays p m = truncation_seen p m && read_full_on_truncate p.
Proof. unfold replays, truncation_seen. now destruct (fs_stat (fs m)). Qed.

Lemma detect_step p m :
  exists evs m0,
    _detect_truncate p m = (Ret (truncation_seen p m), m0) /\
    out m0 = out m ++ evs /\ sleeps evs = 0%nat /\ emitted evs = [] /\
    _file m0 = _file m /\ _is_running m0 = _is_running m /\
    stop_request m0 = stop_request m /\ future m0 = future m /\ fs m0 = fs m /\
    logs (_stats m0) = logs (_stats m) /\ bytes (_stats m0) = bytes (_stats m) /\
    truncates (_stats m0) = truncates (_stats m) + (if truncation_seen p m then 1 else 0) /\
    _last_file_size m0 = match fs_stat (fs m) with
                         | Some current => current
                         | None => _last_file_size m
                         end.
Proof.
  unfold _detect_truncate, try_except, os_stat, truncation_seen, shrunk. unfold_monad. simpl.
  destruct (fs_stat (fs m)) as [current|]; simpl.
  - destruct ((current <? _last_file_size m) &&
              (truncate_sensitivity p <=? Z.abs (current - _last_file_size m))); simpl.
    + exists [Status (MsgTruncated (truncates (_stats m) + 1))]. eexists.
      split; [reflexivity|]. simpl. repeat split; auto.
    + exists []. eexists. split; [reflexivity|]. simpl. rewrite app_nil_r.
      repeat split; auto. lia.
  - exists [Status MsgStatFailed]. eexists. split; [reflexivity|]. simpl.
    repeat split; auto. lia.
Qed.

Lemma read_step p m h :
  _file m = Some h -> fs_read_ok (fs m) = true ->
  file_read (chunk_size p) m =
  (Ret (next_chunk p m),
   set_file (Some {| pos := pos h + List.length (next_chunk p m); closed := closed h |}) m).
Proof. intros Hf Hr. unfold file_read, next_chunk. now rewrite Hf, Hr. Qed.

Lemma poll_cycle_to_sleep p m :
  replays p m = false -> can_read m = true ->
  exists before m1,
    poll_cycle p m = poll_sleep p m1 /\
    out m1 = out m ++ before /\ sleeps before = 0%nat /\
    emitted before = printed p (next_chunk p m) /\
    _file m1 = match _file m with
               | Some h => Some {| pos := pos h + List.length (next_chunk p m);
                                   closed := closed h |}
               | None => None
               end /\
    bytes (_stats m1) = bytes (_stats m) + len (next_chunk p m) /\
    logs (_stats m1) = logs (_stats m) + (match next_chunk p m with [] => 0 | _ => 1 end) /\
    truncates (_stats m1) = truncates (_stats m) + (if truncation_seen p m then 1 else 0) /\
    _last_file_size m1 = match fs_stat (fs m) with
                         | Some current => current
                         | None => _last_file_size m
                         end /\
    _is_running m1 = _is_running m /\ stop_request m1 = stop_request m /\
    future m1 = future m /\ fs m1 = fs m.
Proof.
  intros Hrep Hread. rewrite replays_eq in Hrep.
  destruct (detect_step p m)
    as (e0 & m0 & E0 & O0 & S0 & Em0 & F0 & Run0 & Req0 & Fut0 & Fs0 & L0 & B0 & T0 & Last0).
  assert (Hchunk : next_chunk p m0 = next_chunk p m)
    by (unfold next_chunk; now rewrite F0, Fs0).
  unfold poll_cycle. unfold bind at 1. rewrite E0, Hrep.
  unfold bind, gets. rewrite F0. unfold can_read in Hread.
  destruct (_file m) as [h|] eqn:Hf.
  - rewrite (read_step p m0 h F0) by now rewrite Fs0.
    rewrite Hchunk. unfold printed.
    destruct (next_chunk p m) as [|c chunk] eqn:Hc.
    + unfold ret. eexists e0, _. split; [reflexivity|]. simpl.
      unfold len. simpl. repeat split; auto; lia.
    + unfold modify, emit, ret.
      destruct (processor_filter p (processor_clean p (c :: chunk))); unfold modify.
      * exists (e0 ++ [Emit (processor_clean p (c :: chunk))]). eexists.
        split; [reflexivity|]. simpl. rewrite O0, <- app_assoc, sleeps_app, emitted_app, S0, Em0.
        simpl. repeat split; auto; lia.
      * exists e0. eexists. split; [reflexivity|]. simpl.
        repeat split; auto; lia.
  - unfold ret. exists e0, m0. split; [reflexivity|].
    unfold next_chunk. rewrite Hf. unfold len. simpl.
    repeat split; auto; lia.
Qed.

Lemma advance_keeps x :
  out (advance x) = out x /\ _file (advance x) = _file x /\ _stats (advance x) = _stats x /\
  _is_running (advance x) = _is_running x /\ _last_file_size (advance x) = _last_file_size x /\
  stop_request (advance x) = stop_request x.
Proof. unfold advance. destruct (future x); simpl; auto 10. Qed.

#[local] Arguments stop : simpl never.

Lemma poll_sleep_quiet p m :
  stop_due m = false ->
  exists m',
    poll_sleep p m = (Ret tt, m') /\ out m' = out m ++ [Sleep (interval p)] /\
    _file m' = _file m /\ _stats m' = _stats m /\ _last_file_size m' = _last_file_size m /\
    _is_running m' = _is_running m.
Proof.
  unfold stop_due, poll_sleep, advance. unfold_monad. simpl. intros H.
  destruct (future m); simpl;
    (destruct (stop_request m) as [[|k]|]; [discriminate | |]);
    eexists; (split; [reflexivity|]); simpl; auto 10.
Qed.

Lemma poll_sleep_signal p m :
  stop_due m = true -> _is_running m = true ->
  exists after m',
    poll_sleep p m = (Abort (Exit 0), m') /\
    out m' = out m ++ Sleep (interval p) :: after /\
    reports after = (if show_stats p then 1 else 0)%nat /\ (closes after <= 1)%nat /\
    _file m' = None /\ _is_running m' = false.
Proof.
  unfold stop_due, poll_sleep, advance. unfold_monad. simpl. intros H Hrun.
  destruct (future m); simpl;
    (destruct (stop_request m) as [[|k]|]; try discriminate); simpl;
    match goal with
    | |- context [stop p ?M] =>
        destruct (stop_when_running p M Hrun) as (after & m' & E & O & R & C & Run & F)
    end;
    exists after, m'; (split; [exact E|]); (split; [|auto]);
    rewrite O; simpl; now rewrite <- app_assoc.
Qed.

(** X8. A poll cycle that does not replay the file reads once, from the
    cursor, at most [chunk_size] characters.  The cursor moves past what was
    read; a non-empty chunk adds its length to the byte counter and one to the
    log counter whether or not it is printed; the cleaned chunk is printed
    exactly when it is non-empty and passes the keyword filter; an empty read
    changes neither the cursor nor the counters. *)
Theorem poll_cycle_reads (p : Params) (m : Machine) :
  replays p m = false -> can_read m = true -> stop_due m = false ->
  let chunk := next_chunk p m in
  exists evs m',
    poll_cycle p m = (Ret tt, m') /\
    out m' = out m ++ evs /\
    emitted evs = printed p chunk /\
    _file m' = match _file m with
               | Some h => Some {| pos := pos h + List.length chunk; closed := closed h |}
               | None => None
               end /\
    bytes (_stats m') = bytes (_stats m) + len chunk /\
    logs (_stats m') = logs (_stats m) + (match chunk with [] => 0 | _ => 1 end) /\
    (len chunk <= Z.max 0 (chunk_size p) \/ chunk_size p < 0).
Proof.
  intros Hrep Hread Hstop chunk.
  destruct (poll_cycle_to_sleep p m Hrep Hread)
    as (before & m1 & E & O & S & Em & F & B & L & T & La & Run & Req & Fu & Fs).
  destruct (poll_sleep_quiet p m1) as (m' & E' & O' & F' & St' & _).
  { unfold stop_due. now rewrite Req. }
  exists (before ++ [Sleep (interval p)]), m'.
  split; [now rewrite E|]. split; [now rewrite O', O, app_assoc|].
  split; [rewrite emitted_app, Em; simpl; now rewrite app_nil_r|].
  split; [now rewrite F', F|]. rewrite St'. split; [exact B|]. split; [exact L|].
  unfold chunk, next_chunk, len. destruct (_file m) as [h|]; [|simpl; lia].
  destruct (Z.ltb_spec (chunk_size p) 0); [now right | left].
  rewrite length_firstn. lia.
Qed.

Lemma poll_cycle_reads_witness :
  let m := polling (plain_file (str "old  WARN disk full")) 4 19 in
  exists evs m',
    poll_cycle default_params m = (Ret tt, m') /\
    out m' = out m ++ evs /\
    emitted evs = printed default_params (next_chunk default_params m) /\
    _file m' = match _file m with
               | Some h => Some {| pos := pos h + List.length (next_chunk default_params m);
                                   closed := closed h |}
               | None => None
               end /\
    bytes (_stats m') = bytes (_stats m) + len (next_chunk default_params m) /\
    logs (_stats m') =
      logs (_stats m) + (match next_chunk default_params m with [] => 0 | _ => 1 end) /\
    (len (next_chunk default_params m) <= Z.max 0 (chunk_size default_params) \/
     chunk_size default_params < 0).
Proof. intros m. apply (poll_cycle_reads default_params m); reflexivity. Defined.



(** X22. A termination signal that arrives during the sleep of a poll cycle
    runs [stop] there: the cycle reads and sleeps as usual, then the handle
    is released, the statistics are reported once if [show_stats] is set, and
    the cycle ends in [sys.exit(0)] with the monitor stopped. *)
Theorem poll_cycle_signal (p : Params) (m : Machine) :
  replays p m = false -> can_read m = true ->
  stop_due m = true -> _is_running m = true ->
  exists before after m',
    poll_cycle p m = (Abort (Exit 0), m') /\
    out m' = out m ++ before ++ Sleep (interval p) :: after /\
    sleeps before = 0%nat /\ emitted before = printed p (next_chunk p m) /\
    reports after = (if show_stats p then 1 else 0)%nat /\ (closes after <= 1)%nat /\
    _file m' = None /\ _is_running m' = false.
Proof.
  intros Hrep Hread Hstop Hrun.
  destruct (poll_cycle_to_sleep p m Hrep Hread)
    as (before & m1 & E & O & S & Em & F & B & L & T & La & Run & Req & Fu & Fs).
  destruct (poll_sleep_signal p m1) as (after & m' & E' & O' & R' & C' & F' & Run').
  { unfold stop_due. now rewrite Req. }
  { now rewrite Run. }
  exists before, after, m'. split; [now rewrite E|].
  split; [now rewrite O', O, <- app_assoc|]. auto 10.
Qed.

Lemma poll_cycle_signal_witness :
  let m := set_stop_request (Some 0%nat) (polling (plain_file (str "old INFO new")) 3 12) in
  exists before after m',
    poll_cycle default_params m = (Abort (Exit 0), m') /\
    out m' = out m ++ before ++ Sleep (interval default_params) :: after /\
    sleeps before = 0%nat /\
    emitted before = printed default_params (next_chunk default_params m) /\
    reports after = (if show_stats default_params then 1 else 0)%nat /\
    (closes after <= 1)%nat /\
    _file m' = None /\ _is_running m' = false.
Proof. intros m. apply (poll_cycle_signal default_params m); reflexivity. Defined.

(** ** Opening the file *)

(** X4. The first open ([read_full=False]) prints nothing of what is already
    in the file: it takes the size reported by [stat] as the last known size,
    places the cursor at the end of the content, leaves the read counters
    alone, and the next read returns only what has been appended since. *)
Theorem _open_file_at_end (p : Params) (m : Machine) (size : Z) :
  fs_open_ok (fs m) = true -> fs_read_ok (fs m) = true -> fs_stat (fs m) = Some size ->
  exists evs m',
    _open_file p false m = (Ret tt, m') /\
    out m' = out m ++ evs /\ emitted evs = [] /\
    _file m' = Some {| pos := List.length (fs_text (fs m)); closed := false |} /\
    _last_file_size m' = size /\
    bytes (_stats m') = bytes (_stats m) /\
    forall appended,
      next_chunk p (set_world (grow appended (fs m')) (future m') m') =
      if chunk_size p <? 0 then appended else firstn (Z.to_nat (chunk_size p)) appended.
Proof.
  intros Hopen Hread Hstat.
  destruct (_close_file_spec m)
    as (closing & m0 & E0 & O0 & _ & _ & _ & Em0 & F0 & Run0 & L0 & Fs0 & Fut0 & Req0 & B0).
  unfold _open_file. unfold bind at 1. rewrite E0.
  unfold try_except, os_open, os_stat, file_seek_end. unfold_monad. simpl.
  rewrite Fs0, Hopen. simpl. rewrite Fs0, Hstat. simpl.
  eexists. eexists. split; [reflexivity|]. simpl.
  split. { rewrite O0, <- !app_assoc. reflexivity. }
  split. { rewrite emitted_app, Em0. reflexivity. }
  rewrite Fs0. split; [reflexivity|]. split; [reflexivity|]. split; [exact B0|].
  intros appended. unfold next_chunk. simpl.
  rewrite skipn_app, skipn_all, Nat.sub_diag. reflexivity.
Qed.

Lemma _open_file_at_end_witness :
  let m := new_monitor (plain_file (str "DEBUG old line")) [] None in
  exists evs m',
    _open_file default_params false m = (Ret tt, m') /\
    out m' = out m ++ evs /\ emitted evs = [] /\
    _file m' = Some {| pos := List.length (fs_text (fs m)); closed := false |} /\
    _last_file_size m' = 14 /\
    bytes (_stats m') = bytes (_stats m) /\
    forall appended,
      next_chunk default_params (set_world (grow appended (fs m')) (future m') m') =
      if chunk_size default_params <? 0 then appended
      else firstn (Z.to_nat (chunk_size default_params)) appended.
Proof. intros m. apply (_open_file_at_end default_params m 14); reflexivity. Defined.

Lemma read_all_raises p rounds : forall total m h e,
  _file m = Some h ->
  fst (read_all p rounds total m) = Abort (Raise e) ->
  e = OSError /\ fs_read_ok (fs m) = false.
Proof.
  induction rounds as [|rounds IH]; intros total m h e Hf; cbn [read_all]; [discriminate|].
  unfold bind at 1. unfold file_read. rewrite Hf.
  destruct (fs_read_ok (fs m)) eqn:Hr; [|simpl; intros [= <-]; auto].
  destruct (if chunk_size p <? 0 then skipn (pos h) (fs_text (fs m))
            else firstn (Z.to_nat (chunk_size p)) (skipn (pos h) (fs_text (fs m))))
    as [|c chunk]; [discriminate|].
  unfold_monad.
  destruct (processor_filter p (processor_clean p (c :: chunk))); intros H;
    apply IH with (h := {| pos := pos h + List.length (c :: chunk); closed := closed h |})
      in H; try reflexivity; simpl in H; destruct H; split; congruence.
Qed.

#[local] Arguments read_all : simpl never.

(** X5. Whatever goes wrong in [_open_file] leaves it as a [RuntimeError]
    that wraps the failure; it raises only when [open] fails, when [stat]
    fails, or, with a full replay, when reading fails. *)
Theorem _open_file_raises (p : Params) (read_full : bool) (m : Machine) (e : exn) :
  fst (_open_file p read_full m) = Abort (Raise e) ->
  e = RuntimeError OSError /\
  (fs_open_ok (fs m) = false \/ fs_stat (fs m) = None \/
   (read_full = true /\ fs_read_ok (fs m) = false)).
Proof.
  destruct (_close_file_spec m)
    as (closing & m0 & E0 & O0 & _ & _ & _ & Em0 & F0 & Run0 & L0 & Fs0 & Fut0 & Req0 & B0).
  unfold _open_file. unfold bind at 1. rewrite E0.
  unfold try_except, os_open, os_stat, file_seek_end. unfold_monad. simpl. rewrite Fs0.
  destruct (fs_open_ok (fs m)); simpl; [|intros [= <-]; auto].
  rewrite ?Fs0.
  destruct (fs_stat (fs m)) as [size|]; simpl; [|intros [= <-]; auto].
  destruct read_full; simpl; [|discriminate].
  match goal with
  | |- context [read_all p ?r ?t ?mm] =>
      pose proof (read_all_raises p r t mm {| pos := 0; closed := false |}) as Hraise;
      destruct (read_all p r t mm) as [[total|[e'|code|]] m4]
  end; simpl; try discriminate.
  intros [= <-]. destruct (Hraise e' eq_refl eq_refl) as [-> Hr]. simpl in Hr.
  split; [reflexivity|]. right. right. split; [reflexivity | now rewrite <- Fs0].
Qed.

Lemma _open_file_raises_witness :
  RuntimeError OSError = RuntimeError OSError /\
  (fs_open_ok locked_file = false \/ fs_stat locked_file = None \/
   (false = true /\ fs_read_ok locked_file = false)).
Proof.
  apply (_open_file_raises default_params false (new_monitor locked_file [] None)).
  reflexivity.
Defined.

(** ** Shutdown *)

Lemma advance_emit (m : Machine) (e : event) :
  let m1 := advance (set_out (out m ++ [e]) m) in
  out m1 = out m ++ [e] /\ future m1 = skipn 1 (future m) /\
  _is_running m1 = _is_running m /\ _file m1 = _file m.
Proof.
  destruct m as [f r l s w fu req o]. unfold advance. simpl.
  destruct fu; simpl; repeat split; reflexivity.
Qed.

Lemma countdown_exact i : forall m,
  exists m',
    countdown i m = (Ret tt, m') /\
    out m' = out m ++ List.map (fun k => Countdown (Z.of_nat k)) (rev (seq 1 i)) /\
    future m' = skipn i (future m) /\
    _is_running m' = _is_running m /\ _file m' = _file m.
Proof.
  induction i as [|i IH]; intros m.
  - exists m. simpl. rewrite app_nil_r. repeat split; reflexivity.
  - cbn [countdown]. unfold_monad.
    set (m1 := advance (set_out (out m ++ [Countdown (Z.of_nat (S i))]) m)).
    destruct (IH m1) as (m' & E & O & Fu & Run & F).
    assert (H1 : out m1 = out m ++ [Countdown (Z.of_nat (S i))] /\
                 future m1 = skipn 1 (future m) /\
                 _is_running m1 = _is_running m /\ _file m1 = _file m).
    { unfold m1. apply advance_emit. }
    destruct H1 as (O1 & Fu1 & Run1 & F1).
    exists m'. split; [exact E|].
    rewrite O, O1, Fu, Fu1, Run, Run1, F, F1, skipn_skipn, Nat.add_1_r.
    repeat split; try reflexivity.
    rewrite seq_S, rev_app_distr, <- app_assoc. reflexivity.
Qed.

Lemma countdowns_app a b : countdowns (a ++ b) = countdowns a ++ countdowns b.
Proof. unfold countdowns. apply flat_map_app. Qed.

Lemma countdowns_Countdown l :
  countdowns (List.map (fun k => Countdown (Z.of_nat k)) l) = List.map Z.of_nat l.
Proof. induction l as [|k l IH]; simpl; [reflexivity | now rewrite IH]. Qed.

Lemma _close_file_quiet m :
  exists evs m',
    _close_file m = (Ret tt, m') /\ out m' = out m ++ evs /\ countdowns evs = [] /\
    future m' = future m /\ _is_running m' = _is_running m /\ _file m' = None.
Proof.
  unfold _close_file, try_except, file_close. unfold_monad. simpl.
  destruct (_file m) as [h|]; simpl;
    [destruct (closed h); simpl; [|destruct (fs_close_ok (fs m)); simpl]|].
  - exists []. eexists. split; [reflexivity|]. simpl. rewrite app_nil_r. repeat split; auto.
  - exists [FileClose; Status MsgHandleClosed]. eexists. split; [reflexivity|].
    simpl. rewrite <- app_assoc. repeat split; auto.
  - exists [FileClose; Status MsgCloseFailed]. eexists. split; [reflexivity|].
    simpl. rewrite <- app_assoc. repeat split; auto.
  - exists []. eexists. split; [reflexivity|]. simpl. rewrite app_nil_r. repeat split; auto.
Qed.

(** X20. [stop] on a running monitor waits [auto_close_delay] seconds before
    it exits: it prints one countdown line per second, counting down from the
    delay to 1, and none when the delay is 0; it always ends in
    [sys.exit(0)] with the monitor stopped and the handle released. *)
Theorem stop_counts_down (p : Params) (m : Machine) :
  _is_running m = true ->
  exists evs m',
    stop p m = (Abort (Exit 0), m') /\ out m' = out m ++ evs /\
    countdowns evs = List.map Z.of_nat (rev (seq 1 (Z.to_nat (auto_close_delay p)))) /\
    future m' = skipn (Z.to_nat (auto_close_delay p)) (future m) /\
    _is_running m' = false /\ _file m' = None.
Proof.
  intros Hrun. unfold stop. unfold_monad. rewrite Hrun. simpl.
  set (m1 := set_is_running false (set_out (out m ++ [Status MsgStopping]) m)).
  destruct (_close_file_quiet m1) as (e1 & m2 & E2 & O2 & C2 & Fu2 & Run2 & F2).
  rewrite E2. unfold m1 in O2, Fu2, Run2. simpl in O2, Fu2, Run2.
  assert (exists e3 m3, _print_stats p m2 = (Ret tt, m3) /\ out m3 = out m2 ++ e3 /\
            countdowns e3 = [] /\ future m3 = future m2 /\
            _is_running m3 = false /\ _file m3 = None)
    as (e3 & m3 & E3 & O3 & C3 & Fu3 & Run3 & F3).
  { unfold _print_stats. destruct (show_stats p); unfold_monad; simpl.
    - exists [StatsReport (_stats m2)]. eexists. split; [reflexivity|]. simpl. repeat split; auto.
    - exists [], m2. rewrite app_nil_r. repeat split; auto. }
  rewrite E3.
  destruct (Z.ltb_spec 0 (auto_close_delay p)) as [Hd|Hd].
  - destruct (countdown_exact (Z.to_nat (auto_close_delay p))
                (set_out (out m3 ++ [Status (MsgAutoClose (auto_close_delay p))]) m3))
      as (m4 & E4 & O4 & Fu4 & Run4 & F4).
    rewrite E4. simpl in O4, Fu4, Run4, F4.
    eexists. exists m4. split; [reflexivity|].
    split. { rewrite O4, O3, O2, <- !app_assoc. reflexivity. }
    rewrite !countdowns_app, C2, C3, countdowns_Countdown. simpl.
    rewrite Fu4, Fu3, Fu2, Run4, F4. repeat split; auto.
  - simpl. eexists. exists m3. split; [reflexivity|].
    split. { rewrite O3, O2, <- !app_assoc. reflexivity. }
    rewrite !countdowns_app, C2, C3. simpl.
    replace (Z.to_nat (auto_close_delay p)) with 0%nat by lia. simpl.
    rewrite Fu3, Fu2. repeat split; auto.
Qed.

Lemma stop_counts_down_witness :
  let m := polling (plain_file (str "INFO up")) 7 7 in
  exists evs m',
    stop default_params m = (Abort (Exit 0), m') /\ out m' = out m ++ evs /\
    countdowns evs =
      List.map Z.of_nat (rev (seq 1 (Z.to_nat (auto_close_delay default_params)))) /\
    future m' = skipn (Z.to_nat (auto_close_delay default_params)) (future m) /\
    _is_running m' = false /\ _file m' = None.
Proof. intros m. apply (stop_counts_down default_params m). vm_compute; reflexivity. Defined.

(** ** A failure while polling *)

Lemma start_unfold p fuel m :
  start p fuel m = try_finally (start_body p fuel) (stop p) (set_out (out m ++ [Header]) m).
Proof. reflexivity. Qed.

Lemma try_finally_returned {A} (body : M A) (fin : M unit) m a m1 :
  body m = (Ret a, m1) ->
  try_finally body fin m =
  match fin m1 with
  | (Ret _, m2) => (Ret a, m2)
  | (Abort x, m2) => (Abort x, m2)
  end.
Proof. intros E. unfold try_finally. now rewrite E. Qed.

Lemma bind_returned {A B} (c : M A) (k : A -> M B) m a m1 :
  c m = (Ret a, m1) -> bind c k m = k a m1.
Proof. intros E. unfold bind. now rewrite E. Qed.

Lemma bind_aborted {A B} (c : M A) (k : A -> M B) m x m1 :
  c m = (Abort x, m1) -> bind c k m = (Abort x, m1).
Proof. intros E. unfold bind. now rewrite E. Qed.

Lemma try_except_raised {A} (body : M A) (handler : exn -> M A) m e m1 :
  body m = (Abort (Raise e), m1) -> try_except body handler m = handler e m1.
Proof. intros E. unfold try_except. now rewrite E. Qed.

Lemma _validate_file_passes p fuel m :
  fs_exists (fs m) = true -> fs_is_file (fs m) = true -> fs_access (fs m) = true ->
  _validate_file p fuel m = (Ret tt, set_out (out m ++ [Status MsgValidated]) m).
Proof.
  intros Hex Hisf Hacc. unfold _validate_file.
  rewrite (bind_returned _ _ _ _ _ (wait_present p fuel m Hex)).
  unfold_monad. rewrite Hisf. simpl. rewrite Hacc. reflexivity.
Qed.

Lemma _open_file_first p m size :
  _file m = None -> fs_open_ok (fs m) = true -> fs_stat (fs m) = Some size ->
  exists m2,
    _open_file p false m = (Ret tt, m2) /\
    _file m2 = Some {| pos := List.length (fs_text (fs m)); closed := false |} /\
    _last_file_size m2 = size /\ fs m2 = fs m /\ _stats m2 = _stats m /\
    out m2 = out m ++ [FileOpen; Status (MsgOpened size); Status MsgReady] /\
    future m2 = future m /\ stop_request m2 = stop_request m.
Proof.
  destruct m as [f r l s [ex isf acc op rd cl st tx] fut req o]. simpl.
  intros -> -> ->.
  unfold _open_file, _close_file, try_except, os_open, os_stat, file_seek_end.
  unfold_monad. simpl.
  eexists. split; [reflexivity|]. simpl. rewrite <- !app_assoc. repeat split; reflexivity.
Qed.

Lemma poll_loop_read_failure p fuel m h :
  _is_running m = true -> _file m = Some h ->
  fs_stat (fs m) = Some (_last_file_size m) -> fs_read_ok (fs m) = false ->
  exists m3,
    poll_loop p (S fuel) m = (Abort (Raise OSError), m3) /\
    _is_running m3 = true /\ _stats m3 = _stats m /\ out m3 = out m.
Proof.
  destruct m as [f r l s [ex isf acc op rd cl st tx] fut req o]. simpl.
  intros -> -> -> ->.
  cbn [poll_loop].
  unfold poll_cycle, _detect_truncate, try_except, os_stat, file_read. unfold_monad. simpl.
  rewrite Z.ltb_irrefl. simpl.
  eexists. split; [reflexivity|]. repeat split; reflexivity.
Qed.

Lemma start_body_read_failure p fuel m size :
  _is_running m = false -> _file m = None ->
  fs_exists (fs m) = true -> fs_is_file (fs m) = true -> fs_access (fs m) = true ->
  fs_open_ok (fs m) = true -> fs_stat (fs m) = Some size -> fs_read_ok (fs m) = false ->
  exists m1,
    start_body p (S fuel) (set_out (out m ++ [Header]) m) = (Ret tt, m1) /\
    _is_running m1 = true /\
    out m1 = out m ++ [Header; Status MsgValidated; FileOpen; Status (MsgOpened size);
                       Status MsgReady; Status (MsgMonitorError OSError)] /\
    errors (_stats m1) = errors (_stats m) + 1.
Proof.
  intros Hrun Hf Hex Hisf Hacc Hop Hst Hrd.
  set (m0 := set_out (out m ++ [Header]) m).
  set (ma := set_out (out m0 ++ [Status MsgValidated]) m0).
  destruct (_open_file_first p ma size Hf Hop Hst) as (m2 & E2 & F2 & L2 & Fs2 & S2 & O2 & _).
  set (mr := set_is_running true m2).
  destruct (poll_loop_read_failure p fuel mr _ eq_refl F2) as (m3 & E3 & R3 & S3 & O3).
  { unfold mr. simpl. now rewrite Fs2, L2. }
  { unfold mr. simpl. now rewrite Fs2. }
  unfold start_body.
  erewrite try_except_raised; cycle 1.
  { erewrite bind_returned by (apply (_validate_file_passes p (S fuel) m0); assumption).
    erewrite bind_returned by exact E2.
    erewrite bind_returned by reflexivity.
    exact E3. }
  unfold_monad. eexists. split; [reflexivity|]. simpl.
  rewrite R3, S3, O3. unfold mr. simpl. rewrite S2, O2. unfold ma, m0. simpl.
  rewrite <- !app_assoc. repeat split; reflexivity.
Qed.

(** X9. A read that fails in the first poll cycle ends the run in an orderly
    way: [start] catches the exception, reports it and counts it as an error,
    then [stop] releases the handle, reports the statistics once if
    [show_stats] is set and exits with code 0. *)
Theorem read_failure_stops (p : Params) (fuel : nat) (m : Machine) (size : Z) :
  _is_running m = false -> _file m = None ->
  fs_exists (fs m) = true -> fs_is_file (fs m) = true -> fs_access (fs m) = true ->
  fs_open_ok (fs m) = true -> fs_stat (fs m) = Some size -> fs_read_ok (fs m) = false ->
  exists evs m',
    start p (S fuel) m = (Abort (Exit 0), m') /\ out m' = out m ++ evs /\
    In (Status (MsgMonitorError OSError)) evs /\
    reports evs = (if show_stats p then 1 else 0)%nat /\
    errors (_stats m) + 1 <= errors (_stats m') /\
    _file m' = None /\ _is_running m' = false.
Proof.
  intros Hrun Hf Hex Hisf Hacc Hop Hst Hrd.
  destruct (start_body_read_failure p fuel m size Hrun Hf Hex Hisf Hacc Hop Hst Hrd)
    as (m1 & E1 & Run1 & O1 & Err1).
  rewrite start_unfold, (try_finally_returned _ _ _ _ _ E1).
  destruct (stop_when_running p m1 Run1) as (after & m' & E & O & R & C & Run & F).
  pose proof (grows_stop p m1) as [[_ [_ [_ Herr]]] _].
  rewrite E in Herr |- *. simpl in Herr.
  eexists. exists m'. split; [reflexivity|].
  split. { rewrite O, O1, <- app_assoc. reflexivity. }
  split. { apply in_or_app. left. simpl. do 5 right. now left. }
  split. { rewrite reports_app. unfold reports at 1. simpl. exact R. }
  split; [lia|]. split; assumption.
Qed.

Lemma read_failure_stops_witness :
  let m := new_monitor (unreadable_file 120) [] None in
  exists evs m',
    start default_params 3 m = (Abort (Exit 0), m') /\ out m' = out m ++ evs /\
    In (Status (MsgMonitorError OSError)) evs /\
    reports evs = (if show_stats default_params then 1 else 0)%nat /\
    errors (_stats m) + 1 <= errors (_stats m') /\
    _file m' = None /\ _is_running m' = false.
Proof. intros m. apply (read_failure_stops default_params 2 m 120); vm_compute; reflexivity. Defined.

(** ** The monitor does not stop by itself *)

Lemma advance_undisturbed x : undisturbed x -> undisturbed (advance x).
Proof.
  destruct x as [f r l s w fu req o]. unfold undisturbed, advance. simpl.
  intros (Hreq & Hw & Hfu). destruct fu as [|w' fu]; simpl in *; [auto|].
  apply andb_true_iff in Hfu as [Hw' Hfu]. auto.
Qed.

Lemma poll_sleep_undisturbed p m :
  undisturbed m -> _is_running m = true ->
  exists m', poll_sleep p m = (Ret tt, m') /\ undisturbed m' /\ _is_running m' = true.
Proof.
  intros Hu Hrun.
  set (m1 := set_out (out m ++ [Sleep (interval p)]) m).
  assert (Hu1 : undisturbed (advance m1)) by (apply advance_undisturbed; exact Hu).
  destruct (advance_keeps m1) as (_ & _ & _ & Hr & _ & _).
  exists (advance m1). split; [|split; [exact Hu1 | now rewrite Hr]].
  unfold poll_sleep. unfold_monad. unfold modify. fold m1.
  destruct Hu1 as (Hreq & _). now rewrite Hreq.
Qed.

Lemma poll_cycle_undisturbed p m :
  0 < chunk_size p -> undisturbed m -> _is_running m = true ->
  exists m', poll_cycle p m = (Ret tt, m') /\ undisturbed m' /\ _is_running m' = true.
Proof.
  intros Hc (Hreq & Hw & Hfu) Hrun.
  apply andb_true_iff in Hw as Hw'. destruct Hw' as [Hop Hrd].
  destruct (replays p m) eqn:Hrep.
  - destruct (detect_step p m)
      as (evs & m0 & E0 & _ & _ & _ & _ & Run0 & Req0 & Fu0 & Fs0 & _).
    assert (exists size, fs_stat (fs m) = Some size) as [size Hst].
    { unfold replays in Hrep. destruct (fs_stat (fs m)); [eauto | discriminate]. }
    destruct (_open_file_replay p m0 size Hc) as
      (chunks & closing & m' & E & _ & _ & _ & _ & _ & _ & _ & _ & _ & Run & Fs & Fu & Req);
      try (rewrite Fs0; assumption).
    exists m'. split.
    + unfold poll_cycle. rewrite (bind_returned _ _ _ _ _ E0), <- replays_eq, Hrep. exact E.
    + unfold undisturbed. rewrite Req, Fs, Fu, Run, Req0, Fs0, Fu0, Run0. auto.
  - destruct (poll_cycle_to_sleep p m Hrep) as
      (before & m1 & E & _ & _ & _ & _ & _ & _ & _ & _ & Run1 & Req1 & Fu1 & Fs1).
    { unfold can_read. rewrite Hrd. now destruct (_file m). }
    destruct (poll_sleep_undisturbed p m1) as (m' & E' & Hu' & Run').
    { unfold undisturbed. rewrite Req1, Fs1, Fu1. auto. }
    { now rewrite Run1. }
    exists m'. rewrite E. auto.
Qed.

Lemma poll_loop_undisturbed p :
  0 < chunk_size p ->
  forall fuel m, undisturbed m -> _is_running m = true ->
    exists m', poll_loop p fuel m = (Abort OutOfFuel, m').
Proof.
  intros Hc. induction fuel as [|fuel IH]; intros m Hu Hrun.
  - exists m. cbn [poll_loop]. unfold_monad. unfold out_of_fuel. now rewrite Hrun.
  - destruct (poll_cycle_undisturbed p m Hc Hu Hrun) as (m1 & E1 & Hu1 & Run1).
    destruct (IH m1 Hu1 Run1) as (m' & E').
    exists m'. cbn [poll_loop]. unfold bind at 1. unfold gets. rewrite Hrun. cbn [negb].
    rewrite (bind_returned _ _ _ _ _ E1). exact E'.
Qed.

(** X21. The monitor never stops by itself.  Started on a regular, readable
    file, with no termination signal to come and a file that can be opened
    and read for as long as the monitor runs, [start] is still polling after
    any number of cycles: it neither returns nor exits, however the file
    grows, shrinks or is replaced in the meantime. *)
Theorem start_keeps_polling (p : Params) (m : Machine) (size : Z) :
  0 < chunk_size p ->
  _is_running m = false -> _file m = None ->
  fs_exists (fs m) = true -> fs_is_file (fs m) = true -> fs_access (fs m) = true ->
  fs_stat (fs m) = Some size -> undisturbed m ->
  forall fuel, fst (start p fuel m) = Abort OutOfFuel.
Proof.
  intros Hc Hrun Hf Hex Hisf Hacc Hst (Hreq & Hw & Hfu) fuel.
  apply andb_true_iff in Hw as Hw'. destruct Hw' as [Hop Hrd].
  set (m0 := set_out (out m ++ [Header]) m).
  set (ma := set_out (out m0 ++ [Status MsgValidated]) m0).
  destruct (_open_file_first p ma size Hf Hop Hst)
    as (m2 & E2 & F2 & L2 & Fs2 & S2 & O2 & Fu2 & Req2).
  destruct (poll_loop_undisturbed p Hc fuel (set_is_running true m2)) as (m3 & E3).
  { unfold undisturbed. simpl. rewrite Req2, Fs2, Fu2. auto. }
  { reflexivity. }
  rewrite start_unfold. unfold try_finally, start_body, try_except.
  erewrite bind_returned by (apply (_validate_file_passes p fuel m0); assumption).
  erewrite bind_returned by exact E2.
  erewrite bind_returned by reflexivity.
  rewrite E3. reflexivity.
Qed.

Lemma start_keeps_polling_witness :
  let m := new_monitor (plain_file (str "INFO up"))
             [grow (str " and running") (plain_file (str "INFO up")); plain_file []] None in
  fst (start default_params 5 m) = Abort OutOfFuel.
Proof.
  intros m. apply (start_keeps_polling default_params m 7); vm_compute; auto.
Defined.

End EngineExtras.
